(** * Cable signal handlers of [netbox/dcim/signals.py]

    A shallow embedding of the cable-related receivers
    ([update_connected_endpoints], [retrace_cable_paths],
    [nullify_connected_endpoints]) over an explicit model of the tables they
    read and write, followed by the properties the design document states
    about the update orchestrator and the path tracer. *)

From Stdlib Require Import List ZArith String Bool Arith Lia.
Import ListNotations.

Local Open Scope string_scope.
Local Open Scope list_scope.
Local Open Scope Z_scope.

(** ** Data model *)

(** A content type names a model class ("dcim.cable", "dcim.interface", ...). *)
Definition ContentType := string.

(** An entry of a cable path is a reference to a stored object: its model and
    its primary key.  Cables and termination objects are both referenced this
    way. *)
Record Node := mkNode {
  node_type : ContentType;
  node_id : Z
}.

Definition node_eqb (a b : Node) : bool :=
  String.eqb (node_type a) (node_type b) && Z.eqb (node_id a) (node_id b).

Inductive CableEnd := End_A | End_B.

Definition cable_end_eqb (a b : CableEnd) : bool :=
  match a, b with
  | End_A, End_A | End_B, End_B => true
  | _, _ => false
  end.

Definition opposite (e : CableEnd) : CableEnd :=
  match e with End_A => End_B | End_B => End_A end.

(** [LinkStatusChoices.STATUS_CONNECTED]. *)
Definition STATUS_CONNECTED : string := "connected".

Record Cable := mkCable {
  pk : Z;
  status : string;
  _orig_status : string
}.

Definition cable_content_type : ContentType := "dcim.cable".

(** The path node that stands for a cable instance. *)
Definition cable_node (c : Cable) : Node := mkNode cable_content_type (pk c).

Record CableTermination := mkCableTermination {
  cable : Z;
  cable_end : CableEnd;
  termination_type : ContentType;
  termination_id : Z
}.

(** The generic foreign key [t.termination]. *)
Definition termination (t : CableTermination) : Node :=
  mkNode (termination_type t) (termination_id t).

Record CablePath := mkCablePath {
  path_pk : Z;
  _nodes : list Node;
  origins : list Node;
  destinations : list Node;
  is_active : bool
}.

(** A connectable object, with its cached link peer. *)
Record TerminationObject := mkTerminationObject {
  object_type : ContentType;
  object_pk : Z;
  _link_peer_type : option ContentType;
  _link_peer_id : option Z
}.

(** The tables the handlers work on. *)
Record Store := mkStore {
  cables : list Cable;
  cable_terminations : list CableTermination;
  cable_paths : list CablePath;
  termination_objects : list TerminationObject
}.

(** ** Names imported by the module

    [PathEndpoint] (from [.models]) decides [isinstance(node, PathEndpoint)]
    on the model of a node; [create_cablepath] and [rebuild_paths] (from
    [.utils]) and [CablePath.retrace] act on the store. *)
Record Imports := mkImports {
  PathEndpoint : ContentType -> bool;
  create_cablepath : list Node -> Store -> Store;
  rebuild_paths : list Node -> Store -> Store;
  retrace : CablePath -> Store -> Store
}.

(** ** Effects: a store, a record of the calls made, and exceptions *)

Inductive Call :=
| Call_create_cablepath (nodes : list Node)
| Call_rebuild_paths (nodes : list Node)
| Call_retrace (cablepath : CablePath).

Inductive Exn := IndexError.

Record World := mkWorld {
  db : Store;
  calls : list Call
}.

Inductive Res (A : Type) :=
| Val (a : A) (w : World)
| Raise (e : Exn) (w : World).
Arguments Val {A} a w.
Arguments Raise {A} e w.

Definition M (A : Type) := World -> Res A.

Definition ret {A} (a : A) : M A := fun w => Val a w.

Definition bind {A B} (m : M A) (k : A -> M B) : M B :=
  fun w => match m w with
           | Val a w' => k a w'
           | Raise e w' => Raise e w'
           end.

Definition raise {A} (e : Exn) : M A := fun w => Raise e w.

Notation "x <- m ;; k" := (bind m (fun x => k))
  (at level 61, m at next level, right associativity).
Notation "m ;;; k" := (bind m (fun _ => k))
  (at level 61, right associativity).

(** [for x in xs: body(x)]. *)
Fixpoint for_each {A} (xs : list A) (body : A -> M unit) : M unit :=
  match xs with
  | [] => ret tt
  | x :: rest => body x ;;; for_each rest body
  end.

(** [xs[i]] on a Python list: [IndexError] out of range. *)
Definition index {A} (xs : list A) (i : nat) : M A :=
  match nth_error xs i with
  | Some x => ret x
  | None => raise IndexError
  end.

Definition get_db : M Store := fun w => Val (db w) w.

(** An imported function is run on the store and the call is recorded. *)
Definition invoke (c : Call) (f : Store -> Store) : M unit :=
  fun w => Val tt (mkWorld (f (db w)) (calls w ++ [c])).

(** A storage-layer write. *)
Definition write_db (f : Store -> Store) : M unit :=
  fun w => Val tt (mkWorld (f (db w)) (calls w)).

(** ** Queries and bulk updates of the storage layer *)

(** [instance.terminations.filter(cable_end=e)]. *)
Definition terminations_filter (instance : Cable) (e : CableEnd) (s : Store)
  : list CableTermination :=
  filter (fun t => Z.eqb (cable t) (pk instance) && cable_end_eqb (cable_end t) e)
         (cable_terminations s).

(** The lookup [_nodes__contains=obj]. *)
Definition nodes_contains (n : Node) (cp : CablePath) : bool :=
  existsb (node_eqb n) (_nodes cp).

(** [CablePath.objects.filter(_nodes__contains=obj)]. *)
Definition cablepaths_containing (n : Node) (s : Store) : list CablePath :=
  filter (nodes_contains n) (cable_paths s).

Definition set_is_active (b : bool) (cp : CablePath) : CablePath :=
  mkCablePath (path_pk cp) (_nodes cp) (origins cp) (destinations cp) b.

(** [CablePath.objects.filter(_nodes__contains=obj).update(is_active=False)]. *)
Definition update_is_active_false (n : Node) (s : Store) : Store :=
  mkStore (cables s) (cable_terminations s)
          (map (fun cp => if nodes_contains n cp then set_is_active false cp else cp)
               (cable_paths s))
          (termination_objects s).

Definition clear_link_peer (o : TerminationObject) : TerminationObject :=
  mkTerminationObject (object_type o) (object_pk o) None None.

(** [model.objects.filter(pk=i).update(_link_peer_type=None, _link_peer_id=None)]
    for the model class of content type [ct]. *)
Definition update_link_peer_none (ct : ContentType) (i : Z) (s : Store) : Store :=
  mkStore (cables s) (cable_terminations s) (cable_paths s)
          (map (fun o => if String.eqb (object_type o) ct && Z.eqb (object_pk o) i
                         then clear_link_peer o else o)
               (termination_objects s)).

(** ** The receivers *)

Section Receivers.

Context (I : Imports).

(** The body of the loop over [_terms.values()]. *)
Definition dispatch_end (nodes : list Node) : M unit :=
  match nodes with
  | [] => ret tt
  | _ :: _ =>
      first <- index nodes 0 ;;
      if PathEndpoint I (node_type first)
      then invoke (Call_create_cablepath nodes) (create_cablepath I nodes)
      else invoke (Call_rebuild_paths nodes) (rebuild_paths I nodes)
  end.

(** The [logger.debug] line of the raw branch writes to the log only and is
    left out. *)
Definition update_connected_endpoints (instance : Cable) (created raw : bool)
  : M unit :=
  if raw then ret tt
  else if created then
    s <- get_db ;;
    let _terms :=
      [ map termination (terminations_filter instance End_A s);
        map termination (terminations_filter instance End_B s) ] in
    for_each _terms dispatch_end
  else if negb (String.eqb (status instance) (_orig_status instance)) then
    if negb (String.eqb (status instance) STATUS_CONNECTED)
    then write_db (update_is_active_false (cable_node instance))
    else invoke (Call_rebuild_paths [cable_node instance])
                (rebuild_paths I [cable_node instance])
  else ret tt.

Definition retrace_cable_paths (instance : Cable) : M unit :=
  s <- get_db ;;
  for_each (cablepaths_containing (cable_node instance) s)
           (fun cablepath => invoke (Call_retrace cablepath) (retrace I cablepath)).

Definition nullify_connected_endpoints (instance : CableTermination) : M unit :=
  write_db (update_link_peer_none (termination_type instance)
                                  (termination_id instance)).

End Receivers.

(** ** What the receivers are expected to have done

    The calls one cable end gives rise to when a cable is created: none for
    an empty end, [create_cablepath] when its first node is a path endpoint
    and [rebuild_paths] otherwise, each on the node list of that end. *)
Definition end_calls (I : Imports) (nodes : list Node) : list Call :=
  match nodes with
  | [] => []
  | first :: _ =>
      if PathEndpoint I (node_type first)
      then [Call_create_cablepath nodes]
      else [Call_rebuild_paths nodes]
  end.

(** The nodes of one end of a cable. *)
Definition end_nodes (instance : Cable) (e : CableEnd) (s : Store) : list Node :=
  map termination (terminations_filter instance e s).

Definition created_calls (I : Imports) (instance : Cable) (s : Store) : list Call :=
  end_calls I (end_nodes instance End_A s) ++ end_calls I (end_nodes instance End_B s).

(** The effect of one recorded call on the store. *)
Definition run_call (I : Imports) (s : Store) (c : Call) : Store :=
  match c with
  | Call_create_cablepath nodes => create_cablepath I nodes s
  | Call_rebuild_paths nodes => rebuild_paths I nodes s
  | Call_retrace cablepath => retrace I cablepath s
  end.

Definition run_calls (I : Imports) (cs : list Call) (s : Store) : Store :=
  fold_left (run_call I) cs s.

(** The node list a call was made on, for the calls that take one. *)
Definition call_nodes (c : Call) : option (list Node) :=
  match c with
  | Call_create_cablepath nodes | Call_rebuild_paths nodes => Some nodes
  | Call_retrace _ => None
  end.

(** The imported functions leave the Termination References alone. *)
Definition preserves_terminations (I : Imports) : Prop :=
  (forall nodes s,
      cable_terminations (create_cablepath I nodes s) = cable_terminations s) /\
  (forall nodes s,
      cable_terminations (rebuild_paths I nodes s) = cable_terminations s) /\
  (forall p s, cable_terminations (retrace I p s) = cable_terminations s).

(** Everything of a CablePath but [is_active]. *)
Definition same_shape (p q : CablePath) : Prop :=
  path_pk q = path_pk p /\ _nodes q = _nodes p /\
  origins q = origins p /\ destinations q = destinations p.

(** ** The path tracer

    [create_cablepath], [rebuild_paths] (module [utils]) and
    [CablePath.retrace] (module [models.cables]) are not part of
    [signals.py]; they are modelled here from the design document (sections
    4.1 and 4.3), over the same store. *)

Module PathTracer.

Section Tracer.

(** The category test of a node: [true] for an Endpoint, [false] for a
    Pass-Through node. *)
Context (is_endpoint : ContentType -> bool).

Definition connected (c : Cable) : bool := String.eqb (status c) STATUS_CONNECTED.

Definition lookup_cable (s : Store) (k : Z) : option Cable :=
  find (fun c => Z.eqb (pk c) k) (cables s).

(** Modelled from the spec: the termination set of a Link at one end (3,
    Link: one set of Termination References per cable-end designator). *)
Definition link_terminations (s : Store) (k : Z) (e : CableEnd) : list Node :=
  map termination
      (filter (fun t => Z.eqb (cable t) k && cable_end_eqb (cable_end t) e)
              (cable_terminations s)).

Definition is_link (came_from : option Z) (k : Z) : bool :=
  match came_from with
  | Some k' => Z.eqb k' k
  | None => false
  end.

(** Modelled from the spec: the Link attached to the current node (4.1,
    step 4), found through the Termination Reference by which the node is
    attached to a Link other than the one the walk arrived by (a
    Pass-Through node is entered on one side and left on the other). *)
Definition onward_termination (s : Store) (n : Node) (came_from : option Z)
  : option CableTermination :=
  find (fun t => node_eqb (termination t) n && negb (is_link came_from (cable t)))
       (cable_terminations s).

(** Modelled from the spec: one step of the walk, classified (4.1,
    step 4). *)
Inductive Hop :=
| NoLink                           (* no Link attached, or the Link is missing *)
| NotConnected (c : Cable)         (* the Link is not in "connected" status *)
| NoTermination (c : Cable)        (* connected, nothing on the opposite end *)
| Reach (c : Cable) (far : list Node).     (* the opposite termination set *)

(** Modelled from the spec: the walking step of the Path Tracer (4.1, step 4):
    from the current node find the attached Link; if there is none or it is
    not connected the walk ends here; otherwise follow it to the opposite
    termination set. *)
Definition hop (s : Store) (n : Node) (came_from : option Z) : Hop :=
  match onward_termination s n came_from with
  | None => NoLink
  | Some t =>
      match lookup_cable s (cable t) with
      | None => NoLink
      | Some c =>
          if negb (connected c) then NotConnected c
          else match link_terminations s (pk c) (opposite (cable_end t)) with
               | [] => NoTermination c
               | first :: rest => Reach c (first :: rest)
               end
      end
  end.

(** Modelled from the spec: what tracing from a node gives (4.1, steps 4
    to 6): the nodes traversed, the destinations
    reached and whether every traversed Link is connected; no chain at all;
    or the walk aborted on a node that recurs. *)
Inductive Trace :=
| Traced (nodes : list Node) (dests : list Node) (active : bool)
| NoPath
| CycleError
| OutOfFuel.

(** Modelled from the spec: the walks through two Termination References
    of one set, put together:
    one CablePath records all of them (4.1, step 5, first policy); an
    aborted part aborts the whole ([NoPath] is no result of a part). *)
Definition join (a b : Trace) : Trace :=
  match a, b with
  | OutOfFuel, _ | _, OutOfFuel => OutOfFuel
  | Traced n1 d1 a1, Traced n2 d2 a2 => Traced (n1 ++ n2) (d1 ++ d2) (a1 && a2)
  | _, _ => CycleError
  end.

(** Modelled from the spec: a node traversed is recorded in front of what
    follows it (4.1, step 4). *)
Definition prepend (n : Node) (r : Trace) : Trace :=
  match r with
  | Traced nodes dests active => Traced (n :: nodes) dests active
  | NoPath | CycleError | OutOfFuel => r
  end.

(** Modelled from the spec: one Termination Reference of the opposite set
    (4.1, steps 4 and 6): a node seen before on the way aborts the walk; an
    Endpoint is a destination and ends this branch; a Pass-Through node is
    recorded and stepped through by [beyond]. *)
Definition visit (beyond : Node -> Trace) (visited : list Node) (t : Node) : Trace :=
  if existsb (node_eqb t) visited then CycleError
  else if is_endpoint (node_type t) then Traced [] [t] true
  else prepend t (beyond t).

(** Modelled from the spec: each Termination Reference of the opposite set
    in turn (4.1, step 4). *)
Definition fan (beyond : Node -> Trace) (visited : list Node) (far : list Node)
  : Trace :=
  fold_right (fun t rest => join (visit beyond visited t) rest)
             (Traced [] [] true) far.

(** Modelled from the spec: the walk of the Path Tracer (4.1, steps 4 to 7),
    from node [n] entered by the Link [came_from]; [visited] holds the nodes
    on the way from the origin, the cycle guard.  A branch ends on an
    Endpoint (a destination), on a Link that is not connected ([is_active]
    false, the Link recorded), or on a node with no onward Link or
    termination. *)
Fixpoint walk (fuel : nat) (s : Store) (visited : list Node) (n : Node)
         (came_from : option Z) : Trace :=
  match fuel with
  | O => OutOfFuel
  | S fuel' =>
      match hop s n came_from with
      | NoLink => Traced [] [] true
      | NotConnected c => Traced [cable_node c] [] false
      | NoTermination c => Traced [cable_node c] [] true
      | Reach c far =>
          prepend (cable_node c)
                  (fan (fun t => walk fuel' s (t :: visited) t (Some (pk c)))
                       visited far)
      end
  end.

Definition object_exists (s : Store) (n : Node) : bool :=
  existsb (fun o => String.eqb (object_type o) (node_type n)
                    && Z.eqb (object_pk o) (node_id n))
          (termination_objects s).

(** Every step down a branch enters a termination not seen before on it, so
    this many steps are enough. *)
Definition enough_fuel (s : Store) : nat := S (List.length (cable_terminations s)).

(** Modelled from the spec: tracing from an origin node (4.1, 4.3): the
    origin has to exist and to begin a traceable chain, that is, to have a
    Link attached. *)
Definition trace (s : Store) (origin : Node) : Trace :=
  if object_exists s origin then
    match hop s origin None with
    | NoLink => NoPath
    | NotConnected _ | NoTermination _ | Reach _ _ =>
        walk (enough_fuel s) s [origin] origin None
    end
  else NoPath.

Definition with_cable_paths (s : Store) (ps : list CablePath) : Store :=
  mkStore (cables s) (cable_terminations s) ps (termination_objects s).

Definition next_path_pk (s : Store) : Z :=
  1 + fold_right Z.max 0 (map path_pk (cable_paths s)).

(** Modelled from the spec: one new CablePath from one originating Endpoint
    (4.1, step 2); a walk that raises [CycleError] persists nothing (4.1,
    failure modes), and neither does an origin that begins no chain. *)
Definition create_path (s : Store) (origin : Node) : Store :=
  match trace s origin with
  | Traced nodes dests active =>
      with_cable_paths s
        (cable_paths s ++ [mkCablePath (next_path_pk s) nodes [origin] dests active])
  | NoPath | CycleError | OutOfFuel => s
  end.

(** Modelled from the spec: [create_cablepath] (4.1, step 2): one new path
    per originating Endpoint. *)
Definition create_cablepath (nodes : list Node) (s : Store) : Store :=
  fold_left create_path nodes s.

(** Modelled from the spec: a CablePath rewritten in place, found by its
    key (4.3). *)
Definition save_path (p : CablePath) (s : Store) : Store :=
  with_cable_paths s
    (map (fun q => if Z.eqb (path_pk q) (path_pk p) then p else q) (cable_paths s)).

(** Modelled from the spec: a CablePath deleted, found by its key (4.3). *)
Definition delete_path (p : CablePath) (s : Store) : Store :=
  with_cable_paths s
    (filter (fun q => negb (Z.eqb (path_pk q) (path_pk p))) (cable_paths s)).

(** Modelled from the spec: [CablePath.retrace] (4.3): re-walk from the stored
    origin on the current Link and termination state, then either update
    node sequence, destinations and [is_active] in place or delete the
    CablePath when the origin is gone or begins no traceable chain.  An
    aborted walk writes nothing. *)
Definition retrace (p : CablePath) (s : Store) : Store :=
  match origins p with
  | [] => delete_path p s
  | origin :: _ =>
      match trace s origin with
      | Traced nodes dests active =>
          save_path (mkCablePath (path_pk p) nodes (origins p) dests active) s
      | NoPath => delete_path p s
      | CycleError | OutOfFuel => s
      end
  end.

Definition contains_any (nodes : list Node) (p : CablePath) : bool :=
  existsb (fun n => nodes_contains n p) nodes.

(** Modelled from the spec: [rebuild_paths] (4.1, step 3): every existing
    CablePath whose node sequence contains any of the nodes is walked again
    from scratch. *)
Definition rebuild_paths (nodes : list Node) (s : Store) : Store :=
  fold_left (fun s' p => retrace p s') (filter (contains_any nodes) (cable_paths s)) s.

(** *** What a correct path is, said on the Links and terminations

    Modelled from the spec (3, 4.1): [follows s visited n came_from nodes
    dests active] holds when, on the Links and Termination References of
    [s], the nodes traversed from [n] are [nodes], the Endpoints reached are
    [dests] and [active] tells whether every traversed Link is connected:
    the Link attached to the node comes first, then, for each Termination
    Reference on its opposite end ([fans]), either the Endpoint it points
    to, a destination, or the Pass-Through node it points to and what
    follows from there.  No node occurs twice on the way. *)
Inductive follows (s : Store)
  : list Node -> Node -> option Z -> list Node -> list Node -> bool -> Prop :=
| follows_no_link visited n came_from :
    hop s n came_from = NoLink ->
    follows s visited n came_from [] [] true
| follows_not_connected visited n came_from c :
    hop s n came_from = NotConnected c ->
    follows s visited n came_from [cable_node c] [] false
| follows_no_termination visited n came_from c :
    hop s n came_from = NoTermination c ->
    follows s visited n came_from [cable_node c] [] true
| follows_link visited n came_from c far nodes dests active :
    hop s n came_from = Reach c far ->
    fans s visited c far nodes dests active ->
    follows s visited n came_from (cable_node c :: nodes) dests active
with fans (s : Store)
  : list Node -> Cable -> list Node -> list Node -> list Node -> bool -> Prop :=
| fans_done visited c :
    fans s visited c [] [] [] true
| fans_endpoint visited c t rest nodes dests active :
    ~ In t visited ->
    is_endpoint (node_type t) = true ->
    fans s visited c rest nodes dests active ->
    fans s visited c (t :: rest) nodes (t :: dests) active
| fans_pass_through visited c t rest nodes1 dests1 active1 nodes2 dests2 active2 :
    ~ In t visited ->
    is_endpoint (node_type t) = false ->
    follows s (t :: visited) t (Some (pk c)) nodes1 dests1 active1 ->
    fans s visited c rest nodes2 dests2 active2 ->
    fans s visited c (t :: rest) (t :: nodes1 ++ nodes2) (dests1 ++ dests2)
         (active1 && active2).

(** Modelled from the spec: the stored contents of a CablePath agree with
    the current Link and termination state (8: an already-correct
    CablePath): its origin exists, and its node sequence, which begins with a
    Link, its destinations and [is_active] are those that follow from the
    origin. *)
Definition agrees (s : Store) (p : CablePath) : Prop :=
  exists origin,
    origins p = [origin] /\
    object_exists s origin = true /\
    _nodes p <> [] /\
    follows s [origin] origin None (_nodes p) (destinations p) (is_active p).

(** Modelled from the spec: a node recurs in a walk (4.1, step 6): some way
    from [n] along connected Links and through Pass-Through nodes comes to a
    node that is already on it. *)
Inductive recurs (s : Store) : list Node -> Node -> option Z -> Prop :=
| recurs_here visited n came_from c far t :
    hop s n came_from = Reach c far ->
    In t far ->
    In t visited ->
    recurs s visited n came_from
| recurs_beyond visited n came_from c far t :
    hop s n came_from = Reach c far ->
    In t far ->
    is_endpoint (node_type t) = false ->
    recurs s (t :: visited) t (Some (pk c)) ->
    recurs s visited n came_from.

Definition node_recurs (s : Store) (origin : Node) : Prop :=
  recurs s [origin] origin None.

(** The Links a node is attached to. *)
Definition links_of (s : Store) (n : Node) : list Z :=
  nodup Z.eq_dec
        (map cable (filter (fun t => node_eqb (termination t) n)
                           (cable_terminations s))).

Definition sides (ct : ContentType) : nat := if is_endpoint ct then 1%nat else 2%nat.

(** Modelled from the spec: the shape of the graph (3): a Termination
    Reference never points to a Link; an Endpoint is attached to at most one
    Link, a Pass-Through node, with its two sides, to at most two. *)
Definition well_formed (s : Store) : Prop :=
  forallb (fun t => negb (String.eqb (termination_type t) cable_content_type)
                    && Nat.leb (List.length (links_of s (termination t)))
                               (sides (termination_type t)))
          (cable_terminations s) = true.




Definition unique_path_pks (s : Store) : Prop :=
  NoDup (map path_pk (cable_paths s)).

(** Two stores with the same Links, Termination References and objects. *)
Definition same_graph (s s' : Store) : Prop :=
  cables s' = cables s /\
  cable_terminations s' = cable_terminations s /\
  termination_objects s' = termination_objects s.

(** Termination References whose node is not on the way so far. *)
Definition unvisited (s : Store) (visited : list Node) : nat :=
  List.length
    (filter (fun t => negb (existsb (node_eqb (termination t)) visited))
            (cable_terminations s)).

(** The part of a node sequence that comes before a node. *)
Fixpoint before (n : Node) (l : list Node) : list Node :=
  match l with
  | [] => []
  | x :: rest => if node_eqb x n then [] else x :: before n rest
  end.

(** Modelled from the spec: the row or rows a stored path leaves when it
    is retraced (4.3): the row
    rewritten from the walk, none if the path is deleted, the row as it is
    if the walk aborts. *)
Definition rebuilt (s : Store) (p : CablePath) : list CablePath :=
  match origins p with
  | [] => []
  | origin :: _ =>
      match trace s origin with
      | Traced nodes dests active =>
          [mkCablePath (path_pk p) nodes (origins p) dests active]
      | NoPath => []
      | CycleError | OutOfFuel => [p]
      end
  end.

(** Modelled from the spec: does the walk from an origin come to an end
    (4.1, failure modes)? *)
Definition completes (s : Store) (origin : Node) : bool :=
  match trace s origin with
  | Traced _ _ _ => true
  | NoPath | CycleError | OutOfFuel => false
  end.

Definition imports : Imports :=
  mkImports is_endpoint create_cablepath rebuild_paths retrace.


End Tracer.

End PathTracer.

(** ** Example stores *)

Module Examples.

Definition endpoint_models (ct : ContentType) : bool :=
  String.eqb ct "dcim.interface".

Definition iface (i : Z) : Node := mkNode "dcim.interface" i.
Definition frontport (i : Z) : Node := mkNode "dcim.frontport" i.

Definition term (k : Z) (e : CableEnd) (n : Node) : CableTermination :=
  mkCableTermination k e (node_type n) (node_id n).

Definition obj (n : Node) : TerminationObject :=
  mkTerminationObject (node_type n) (node_id n) (Some cable_content_type) (Some 1).

(** Interface 1 -- cable 1 -- front port 5 -- cable 2 -- interface 2. *)
Definition chain_terminations : list CableTermination :=
  [ term 1 End_A (iface 1); term 1 End_B (frontport 5);
    term 2 End_A (frontport 5); term 2 End_B (iface 2) ].

Definition chain_objects : list TerminationObject :=
  [ obj (iface 1); obj (iface 2); obj (frontport 5) ].

Definition link1 : Cable := mkCable 1 "connected" "connected".
Definition link2 : Cable := mkCable 2 "connected" "connected".
Definition link2_planned : Cable := mkCable 2 "planned" "connected".
Definition link2_reconnected : Cable := mkCable 2 "connected" "planned".

Definition path_1_to_2 : CablePath :=
  mkCablePath 1
    [cable_node link1; frontport 5; cable_node link2] [iface 1] [iface 2] true.

Definition path_2_to_1 : CablePath :=
  mkCablePath 2
    [cable_node link2; frontport 5; cable_node link1] [iface 2] [iface 1] true.

Definition chain : Store :=
  mkStore [link1; link2] chain_terminations [path_1_to_2; path_2_to_1] chain_objects.

Definition chain_no_paths : Store :=
  mkStore [link1; link2] chain_terminations [] chain_objects.

Definition tracer : Imports := PathTracer.imports endpoint_models.

(** Interface 1 -- cable 1 -- front port 5 -- cable 2 -- front port 6 --
    cable 3 -- front port 7, which is on cable 2 again, beside front port 5;
    aside, interface 2 -- cable 4 -- interface 3.  Every node has as many
    Links as it has sides. *)
Definition loop_back : Store :=
  mkStore
    [ mkCable 1 "connected" "connected"; mkCable 2 "connected" "connected";
      mkCable 3 "connected" "connected"; mkCable 4 "connected" "connected" ]
    [ term 1 End_A (iface 1); term 1 End_B (frontport 5);
      term 2 End_A (frontport 5); term 2 End_B (frontport 6);
      term 3 End_A (frontport 6); term 3 End_B (frontport 7);
      term 2 End_A (frontport 7);
      term 4 End_A (iface 2); term 4 End_B (iface 3) ]
    []
    [ obj (iface 1); obj (iface 2); obj (iface 3);
      obj (frontport 5); obj (frontport 6); obj (frontport 7) ].

(** Interface 1 -- cable 1 -- front ports 5 and 6; front port 5 -- cable 2 --
    interface 2; front port 6 -- cable 3 -- interface 3. *)
Definition splitter : Store :=
  mkStore
    [ mkCable 1 "connected" "connected"; mkCable 2 "connected" "connected";
      mkCable 3 "connected" "connected" ]
    [ term 1 End_A (iface 1); term 1 End_B (frontport 5); term 1 End_B (frontport 6);
      term 2 End_A (frontport 5); term 2 End_B (iface 2);
      term 3 End_A (frontport 6); term 3 End_B (iface 3) ]
    []
    [ obj (iface 1); obj (iface 2); obj (iface 3);
      obj (frontport 5); obj (frontport 6) ].

(** The chain while cable 2 is planned: the path from interface 1 stops on
    cable 2, inactive and without destination. *)
Definition path_1_stopped : CablePath :=
  mkCablePath 1
    [cable_node link1; frontport 5; cable_node link2] [iface 1] [] false.

Definition chain_planned : Store :=
  mkStore [link1; link2_planned] chain_terminations [path_1_stopped] chain_objects.

(** The same rows once cable 2 has been saved as connected again. *)
Definition chain_reconnected : Store :=
  mkStore [link1; link2_reconnected] chain_terminations [path_1_stopped]
          chain_objects.

(** Cable 3 has been given a B end only: interface 7. *)
Definition link3 : Cable := mkCable 3 "connected" "connected".

Definition half_open : Store :=
  mkStore [link3] [term 3 End_B (iface 7)] [] [obj (iface 7)].

End Examples.

(** ** Location, rack and virtual chassis receivers

    The other receivers of [signals.py] work on the inventory tables.  Rows
    carry the fields the receivers read or write; a foreign key is the
    primary key of the row it points to, [None] when null. *)

Module Location.
Record t := mk {
  pk : Z;
  site : Z;
  tree_id : Z;
  lft : Z;
  rght : Z
}.
Definition set_site (v : Z) (l : t) : t := mk (pk l) v (tree_id l) (lft l) (rght l).
End Location.

Module Rack.
Record t := mk {
  pk : Z;
  site : Z;
  location : option Z
}.
Definition set_site (v : Z) (r : t) : t := mk (pk r) v (location r).
End Rack.

Module Device.
Record t := mk {
  pk : Z;
  site : Z;
  location : option Z;
  rack : option Z;
  virtual_chassis : option Z;
  vc_position : option Z;
  vc_priority : option Z
}.
Definition set_site (v : Z) (d : t) : t :=
  mk (pk d) v (location d) (rack d) (virtual_chassis d) (vc_position d) (vc_priority d).
Definition set_site_location (v : Z) (l : option Z) (d : t) : t :=
  mk (pk d) v l (rack d) (virtual_chassis d) (vc_position d) (vc_priority d).
End Device.

Module PowerPanel.
Record t := mk {
  pk : Z;
  site : Z;
  location : option Z
}.
Definition set_site (v : Z) (p : t) : t := mk (pk p) v (location p).
End PowerPanel.

Module VirtualChassis.
Record t := mk {
  pk : Z;
  master : option Z
}.
End VirtualChassis.

Record Inventory := mkInventory {
  locations : list Location.t;
  racks : list Rack.t;
  devices : list Device.t;
  power_panels : list PowerPanel.t
}.

(** *** The tree queries of a location (django-mptt)

    [get_descendant_count] is [(rght - lft - 1) // 2]; a node without
    descendants is a leaf.  [get_descendants(include_self)] of a leaf is the
    empty query, or the query [pk=self.pk] with [include_self]; of another
    node it is the rows of the same tree whose [lft] lies between the
    node's [lft] and [rght], both moved inwards by one without
    [include_self]. *)
Definition get_descendant_count (self : Location.t) : Z :=
  (Location.rght self - Location.lft self - 1) / 2.

Definition is_leaf_node (self : Location.t) : bool :=
  Z.eqb (get_descendant_count self) 0.

(** The filter of the query [self.get_descendants(include_self)], on one row. *)
Definition in_descendants (self : Location.t) (include_self : bool)
           (row : Location.t) : bool :=
  if is_leaf_node self then
    if include_self then Z.eqb (Location.pk row) (Location.pk self) else false
  else
    let left := if include_self then Location.lft self else Location.lft self + 1 in
    let right := if include_self then Location.rght self else Location.rght self - 1 in
    Z.eqb (Location.tree_id row) (Location.tree_id self)
    && Z.leb left (Location.lft row) && Z.leb (Location.lft row) right.

Definition get_descendants (self : Location.t) (include_self : bool)
           (s : Inventory) : list Location.t :=
  filter (in_descendants self include_self) (locations s).

(** [location__in=pks] on a nullable foreign key. *)
Definition location_in (pks : list Z) (location : option Z) : bool :=
  match location with
  | Some k => existsb (Z.eqb k) pks
  | None => false
  end.

(** [handle_location_site_change]: the four bulk updates, in order.  The
    query [locations] is evaluated by the updates that use it, after the
    first one. *)
Definition handle_location_site_change (instance : Location.t) (created : bool)
           (s : Inventory) : Inventory :=
  if negb created then
    let s1 :=
      mkInventory
        (map (fun l => if in_descendants instance false l
                       then Location.set_site (Location.site instance) l else l)
             (locations s))
        (racks s) (devices s) (power_panels s) in
    let locations_pks := map Location.pk (get_descendants instance true s1) in
    let s2 :=
      mkInventory (locations s1)
        (map (fun r => if location_in locations_pks (Rack.location r)
                       then Rack.set_site (Location.site instance) r else r)
             (racks s1))
        (devices s1) (power_panels s1) in
    let s3 :=
      mkInventory (locations s2) (racks s2)
        (map (fun d => if location_in locations_pks (Device.location d)
                       then Device.set_site (Location.site instance) d else d)
             (devices s2))
        (power_panels s2) in
    mkInventory (locations s3) (racks s3) (devices s3)
      (map (fun p => if location_in locations_pks (PowerPanel.location p)
                     then PowerPanel.set_site (Location.site instance) p else p)
           (power_panels s3))
  else s.

(** [rack=instance] on the nullable foreign key of a device. *)
Definition rack_is (instance : Rack.t) (d : Device.t) : bool :=
  match Device.rack d with
  | Some k => Z.eqb k (Rack.pk instance)
  | None => false
  end.

Definition handle_rack_site_change (instance : Rack.t) (created : bool)
           (s : Inventory) : Inventory :=
  if negb created then
    mkInventory (locations s) (racks s)
      (map (fun d => if rack_is instance d
                     then Device.set_site_location (Rack.site instance)
                                                   (Rack.location instance) d
                     else d)
           (devices s))
      (power_panels s)
  else s.

(** Exceptions of [Model.objects.get]. *)
Inductive DbError := DoesNotExist | MultipleObjectsReturned.

Inductive Outcome :=
| Done (s : Inventory)
| Failed (e : DbError) (s : Inventory).

(** [Device.objects.get(pk=k)]. *)
Definition get_device (k : Z) (s : Inventory) : DbError + Device.t :=
  match filter (fun d => Z.eqb (Device.pk d) k) (devices s) with
  | [] => inl DoesNotExist
  | [d] => inr d
  | _ :: _ :: _ => inl MultipleObjectsReturned
  end.

(** [device.save()]: the row of that key is written from the instance; a
    key that is not stored is inserted. *)
Definition save_device (d : Device.t) (s : Inventory) : Inventory :=
  mkInventory (locations s) (racks s)
    (if existsb (fun r => Z.eqb (Device.pk r) (Device.pk d)) (devices s)
     then map (fun r => if Z.eqb (Device.pk r) (Device.pk d) then d else r) (devices s)
     else devices s ++ [d])
    (power_panels s).

Definition set_virtual_chassis (vc : Z) (position : Z) (d : Device.t) : Device.t :=
  Device.mk (Device.pk d) (Device.site d) (Device.location d) (Device.rack d)
            (Some vc) (Some position) (Device.vc_priority d).

Definition assign_virtualchassis_master (instance : VirtualChassis.t)
           (created : bool) (s : Inventory) : Outcome :=
  match created, VirtualChassis.master instance with
  | true, Some master_pk =>
      match get_device master_pk s with
      | inl e => Failed e s
      | inr master =>
          Done (save_device (set_virtual_chassis (VirtualChassis.pk instance) 1 master) s)
      end
  | _, _ => Done s
  end.

Definition clear_vc_fields (d : Device.t) : Device.t :=
  Device.mk (Device.pk d) (Device.site d) (Device.location d) (Device.rack d)
            (Device.virtual_chassis d) None None.

(** [virtual_chassis=instance.pk] on the nullable foreign key of a device. *)
Definition member_of (instance : VirtualChassis.t) (d : Device.t) : bool :=
  match Device.virtual_chassis d with
  | Some k => Z.eqb k (VirtualChassis.pk instance)
  | None => false
  end.

(** [clear_virtualchassis_members]: the members are read once, then each is
    changed and saved in turn. *)
Definition clear_virtualchassis_members (instance : VirtualChassis.t)
           (s : Inventory) : Inventory :=
  fold_left (fun s' device => save_device (clear_vc_fields device) s')
            (filter (member_of instance) (devices s)) s.

(** *** Notions used to state the properties of these receivers *)

(** The keys of the locations [location__in=locations] matches. *)
Definition subtree_pks (instance : Location.t) (s : Inventory) : list Z :=
  map Location.pk (get_descendants instance true s).

(** Every device mounted in a rack has the site and location of that rack. *)
Definition devices_follow_racks (s : Inventory) : Prop :=
  forall d r,
    In d (devices s) -> In r (racks s) ->
    Device.rack d = Some (Rack.pk r) ->
    Device.site d = Rack.site r /\ Device.location d = Rack.location r.

Definition unique_device_pks (s : Inventory) : Prop :=
  NoDup (map Device.pk (devices s)).

Module InventoryExamples.

(** Location 1 (site 10) holds location 2; location 3 is another tree. *)
Definition room : Location.t := Location.mk 1 10 1 1 4.
Definition cage : Location.t := Location.mk 2 20 1 2 3.
Definition annex : Location.t := Location.mk 3 30 2 1 2.

Definition rack_a : Rack.t := Rack.mk 1 20 (Some 2).
Definition rack_b : Rack.t := Rack.mk 2 30 (Some 3).

Definition dev (k : Z) (site : Z) (location rack vc : option Z) : Device.t :=
  Device.mk k site location rack vc (Some 2) (Some 100).

Definition site_a : Inventory :=
  mkInventory
    [room; cage; annex] [rack_a; rack_b]
    [dev 1 20 (Some 2) (Some 1) (Some 7); dev 2 30 (Some 3) (Some 2) (Some 7);
     dev 3 30 (Some 3) None None]
    [PowerPanel.mk 1 20 (Some 2); PowerPanel.mk 2 30 None].

Definition chassis : VirtualChassis.t := VirtualChassis.mk 7 (Some 3).

End InventoryExamples.

(** ** Facts about the path tracer *)

Lemma node_eqb_eq (a b : Node) : node_eqb a b = true <-> a = b.
Proof.
  destruct a as [ta ia], b as [tb ib]. unfold node_eqb. simpl.
  rewrite andb_true_iff, String.eqb_eq, Z.eqb_eq.
  split; [intros [-> ->]; reflexivity | intros H; inversion H; auto].
Qed.

Lemma node_eqb_refl (a : Node) : node_eqb a a = true.
Proof. now apply node_eqb_eq. Qed.

Lemma existsb_node_eqb_In (x : Node) (l : list Node) :
  existsb (node_eqb x) l = true <-> In x l.
Proof.
  rewrite existsb_exists. split.
  - intros (y & Hy & He). apply node_eqb_eq in He. now subst.
  - intros H. exists x. split; [assumption | apply node_eqb_refl].
Qed.

Lemma existsb_node_eqb_not_In (x : Node) (l : list Node) :
  existsb (node_eqb x) l = false <-> ~ In x l.
Proof.
  rewrite <- existsb_node_eqb_In. destruct (existsb (node_eqb x) l); split;
    congruence.
Qed.

Lemma filter_length_lt {A} (p q : A -> bool) (l : list A) (x : A) :
  (forall y, q y = true -> p y = true) ->
  In x l -> p x = true -> q x = false ->
  (List.length (filter q l) < List.length (filter p l))%nat.
Proof.
  intros Hqp. induction l as [|y l IH]; intros Hin Hp Hq; [destruct Hin|].
  assert (List.length (filter q l) <= List.length (filter p l))%nat as Hle.
  { clear -Hqp. induction l as [|z l IH]; simpl; [lia|].
    destruct (q z) eqn:Eq.
    - rewrite (Hqp _ Eq). simpl. lia.
    - destruct (p z); simpl; lia. }
  simpl. destruct Hin as [->|Hin].
  - rewrite Hp, Hq. simpl. lia.
  - specialize (IH Hin Hp Hq). destruct (q y) eqn:Eq.
    + rewrite (Hqp _ Eq). simpl. lia.
    + destruct (p y); simpl; lia.
Qed.

(** *** Putting walks together *)

Lemma join_traced (a b : PathTracer.Trace) (nodes dests : list Node) (active : bool) :
  PathTracer.join a b = PathTracer.Traced nodes dests active ->
  exists n1 d1 a1 n2 d2 a2,
    a = PathTracer.Traced n1 d1 a1 /\ b = PathTracer.Traced n2 d2 a2 /\
    nodes = n1 ++ n2 /\ dests = d1 ++ d2 /\ active = a1 && a2.
Proof.
  destruct a as [n1 d1 a1| | |], b as [n2 d2 a2| | |]; simpl; try discriminate.
  intros H. inversion H; subst. now exists n1, d1, a1, n2, d2, a2.
Qed.

Lemma join_out_of_fuel (a b : PathTracer.Trace) :
  PathTracer.join a b = PathTracer.OutOfFuel ->
  a = PathTracer.OutOfFuel \/ b = PathTracer.OutOfFuel.
Proof. destruct a, b; simpl; try discriminate; auto. Qed.

Lemma join_aborted (a b : PathTracer.Trace) :
  a = PathTracer.CycleError \/ a = PathTracer.OutOfFuel \/
  b = PathTracer.CycleError \/ b = PathTracer.OutOfFuel ->
  PathTracer.join a b = PathTracer.CycleError \/
  PathTracer.join a b = PathTracer.OutOfFuel.
Proof.
  intros [Ha | [Ha | [Hb | Hb]]]; subst; try destruct a; try destruct b; simpl; auto.
Qed.

Lemma prepend_traced (n : Node) (r : PathTracer.Trace) (nodes dests : list Node)
      (active : bool) :
  PathTracer.prepend n r = PathTracer.Traced nodes dests active ->
  exists rest, r = PathTracer.Traced rest dests active /\ nodes = n :: rest.
Proof.
  destruct r as [ns ds a| | |]; simpl; try discriminate.
  intros H. inversion H; subst. now exists ns.
Qed.

Lemma prepend_out_of_fuel (n : Node) (r : PathTracer.Trace) :
  PathTracer.prepend n r = PathTracer.OutOfFuel -> r = PathTracer.OutOfFuel.
Proof. destruct r; simpl; try discriminate; auto. Qed.

Lemma prepend_aborted (n : Node) (r : PathTracer.Trace) :
  r = PathTracer.CycleError \/ r = PathTracer.OutOfFuel ->
  PathTracer.prepend n r = PathTracer.CycleError \/
  PathTracer.prepend n r = PathTracer.OutOfFuel.
Proof. intros [->| ->]; simpl; auto. Qed.

Section TracerFacts.

Context (is_endpoint : ContentType -> bool).

Local Abbreviation hop := PathTracer.hop.
Local Abbreviation walk := (PathTracer.walk is_endpoint).
Local Abbreviation trace := (PathTracer.trace is_endpoint).
Local Abbreviation visit := (PathTracer.visit is_endpoint).
Local Abbreviation fan := (PathTracer.fan is_endpoint).

Lemma visit_ext (f g : Node -> PathTracer.Trace) (visited : list Node) (t : Node) :
  (~ In t visited -> is_endpoint (node_type t) = false -> f t = g t) ->
  visit f visited t = visit g visited t.
Proof.
  intros H. unfold PathTracer.visit.
  destruct (existsb (node_eqb t) visited) eqn:Ev; [reflexivity|].
  destruct (is_endpoint (node_type t)) eqn:Ee; [reflexivity|].
  rewrite H; auto. now apply existsb_node_eqb_not_In.
Qed.

Lemma fan_ext (f g : Node -> PathTracer.Trace) (visited far : list Node) :
  (forall t, In t far -> ~ In t visited -> is_endpoint (node_type t) = false ->
             f t = g t) ->
  fan f visited far = fan g visited far.
Proof.
  induction far as [|t far IH]; intros H; [reflexivity|].
  simpl. rewrite (visit_ext f g visited t), IH; [reflexivity| |].
  - intros x Hx. apply H. now right.
  - apply H. now left.
Qed.


Lemma fan_out_of_fuel (f : Node -> PathTracer.Trace) (visited far : list Node) :
  fan f visited far = PathTracer.OutOfFuel ->
  exists t, In t far /\ ~ In t visited /\ is_endpoint (node_type t) = false /\
            f t = PathTracer.OutOfFuel.
Proof.
  induction far as [|t far IH]; simpl; [discriminate|].
  intros H. apply join_out_of_fuel in H as [H|H].
  - exists t. unfold PathTracer.visit in H.
    destruct (existsb (node_eqb t) visited) eqn:Ev; [discriminate|].
    destruct (is_endpoint (node_type t)) eqn:Ee; [discriminate|].
    apply prepend_out_of_fuel in H. apply existsb_node_eqb_not_In in Ev. auto.
  - destruct (IH H) as (x & Hx & Hrest). exists x. split; [now right | exact Hrest].
Qed.

Lemma link_terminations_In (s : Store) (k : Z) (e : CableEnd) (x : Node) :
  In x (PathTracer.link_terminations s k e) ->
  exists t, In t (cable_terminations s) /\ termination t = x /\
            cable t = k /\ cable_end t = e.
Proof.
  unfold PathTracer.link_terminations. rewrite in_map_iff.
  intros (t & Ht & Hin). apply filter_In in Hin as (Hin & Hp).
  apply andb_true_iff in Hp as (Hk & He). apply Z.eqb_eq in Hk.
  exists t. repeat split; auto. destruct (cable_end t), e; auto; discriminate.
Qed.

Lemma hop_reach (s : Store) (n : Node) (came_from : option Z)
      (c : Cable) (far : list Node) :
  hop s n came_from = PathTracer.Reach c far ->
  exists t,
    PathTracer.onward_termination s n came_from = Some t /\
    PathTracer.lookup_cable s (cable t) = Some c /\
    PathTracer.connected c = true /\
    far <> [] /\
    far = PathTracer.link_terminations s (pk c) (opposite (cable_end t)).
Proof.
  unfold PathTracer.hop.
  destruct (PathTracer.onward_termination s n came_from) as [t|]; [|discriminate].
  destruct (PathTracer.lookup_cable s (cable t)) as [c'|] eqn:Ek; [|discriminate].
  destruct (PathTracer.connected c') eqn:Ec; simpl; [|discriminate].
  destruct (PathTracer.link_terminations s (pk c') (opposite (cable_end t)))
    as [|f rest] eqn:El; [discriminate|].
  intros H. inversion H; subst. exists t. rewrite El.
  repeat split; auto. discriminate.
Qed.

Lemma unvisited_decreases (s : Store) (visited : list Node) (t : Node)
      (k : Z) (e : CableEnd) :
  In t (PathTracer.link_terminations s k e) -> ~ In t visited ->
  (PathTracer.unvisited s (t :: visited) < PathTracer.unvisited s visited)%nat.
Proof.
  intros Hin Hnv. unfold PathTracer.unvisited.
  apply link_terminations_In in Hin as (r & Hr & Hrt & _).
  apply filter_length_lt with (x := r); auto.
  - intros y Hy. apply negb_true_iff in Hy. apply negb_true_iff.
    simpl in Hy. now apply orb_false_iff in Hy.
  - apply negb_true_iff. rewrite Hrt. now apply existsb_node_eqb_not_In.
  - apply negb_false_iff. simpl. rewrite Hrt, node_eqb_refl. reflexivity.
Qed.

(** The walk is total: with fuel above the number of unvisited
    terminations it ends by itself. *)
Lemma walk_fuel (s : Store) (fuel : nat) :
  forall visited n came_from,
    (PathTracer.unvisited s visited < fuel)%nat ->
    walk fuel s visited n came_from <> PathTracer.OutOfFuel.
Proof.
  induction fuel as [|fuel IH]; intros visited n came_from Hlt; [lia|].
  simpl. destruct (hop s n came_from) as [|c|c|c far] eqn:Eh; try discriminate.
  intros H. apply prepend_out_of_fuel in H.
  apply fan_out_of_fuel in H as (t & Ht & Hnv & _ & Hout).
  apply hop_reach in Eh as (r & _ & _ & _ & _ & Hfar). rewrite Hfar in Ht.
  pose proof (unvisited_decreases s visited t _ _ Ht Hnv).
  apply (IH (t :: visited) t (Some (pk c))); [lia | exact Hout].
Qed.

Lemma unvisited_le (s : Store) (visited : list Node) :
  (PathTracer.unvisited s visited < PathTracer.enough_fuel s)%nat.
Proof.
  unfold PathTracer.unvisited, PathTracer.enough_fuel.
  pose proof (filter_length_le
                (fun t => negb (existsb (node_eqb (termination t)) visited))
                (cable_terminations s)). lia.
Qed.

Lemma trace_total (s : Store) (origin : Node) :
  trace s origin <> PathTracer.OutOfFuel.
Proof.
  unfold PathTracer.trace. destruct (PathTracer.object_exists s origin);
    [|discriminate].
  destruct (hop s origin None); try discriminate; apply walk_fuel, unvisited_le.
Qed.


(** *** The tracer reads Links, terminations and objects, and writes cable
    paths only *)

Lemma same_graph_refl (s : Store) : PathTracer.same_graph s s.
Proof. repeat split. Qed.

Lemma same_graph_trans (s1 s2 s3 : Store) :
  PathTracer.same_graph s1 s2 -> PathTracer.same_graph s2 s3 ->
  PathTracer.same_graph s1 s3.
Proof.
  intros (A1 & B1 & C1) (A2 & B2 & C2). repeat split; congruence.
Qed.

Lemma hop_same_graph (s s' : Store) (n : Node) (came_from : option Z) :
  PathTracer.same_graph s s' -> hop s' n came_from = hop s n came_from.
Proof.
  intros (Hc & Ht & _).
  unfold PathTracer.hop, PathTracer.onward_termination, PathTracer.lookup_cable,
    PathTracer.link_terminations.
  now rewrite Hc, Ht.
Qed.

Lemma walk_same_graph (s s' : Store) (fuel : nat) :
  PathTracer.same_graph s s' ->
  forall visited n came_from,
    walk fuel s' visited n came_from = walk fuel s visited n came_from.
Proof.
  intros Hg. induction fuel as [|fuel IH]; intros; [reflexivity|].
  simpl. rewrite (hop_same_graph _ _ _ _ Hg).
  destruct (hop s n came_from); try reflexivity.
  f_equal. apply fan_ext. intros. apply IH.
Qed.

Lemma trace_same_graph (s s' : Store) (origin : Node) :
  PathTracer.same_graph s s' -> trace s' origin = trace s origin.
Proof.
  intros Hg. unfold PathTracer.trace, PathTracer.object_exists, PathTracer.enough_fuel.
  rewrite (walk_same_graph _ _ _ Hg), (hop_same_graph _ _ _ _ Hg).
  destruct Hg as (_ & Ht & Ho). now rewrite Ht, Ho.
Qed.

Lemma create_path_same_graph (s : Store) (origin : Node) :
  PathTracer.same_graph s (PathTracer.create_path is_endpoint s origin).
Proof.
  unfold PathTracer.create_path. destruct (trace s origin); repeat split.
Qed.

Lemma create_cablepath_same_graph (nodes : list Node) (s : Store) :
  PathTracer.same_graph s (PathTracer.create_cablepath is_endpoint nodes s).
Proof.
  unfold PathTracer.create_cablepath. revert s.
  induction nodes as [|n nodes IH]; intros s; simpl; [apply same_graph_refl|].
  eapply same_graph_trans; [apply create_path_same_graph | apply IH].
Qed.

Lemma retrace_same_graph (p : CablePath) (s : Store) :
  PathTracer.same_graph s (PathTracer.retrace is_endpoint p s).
Proof.
  unfold PathTracer.retrace. destruct (origins p) as [|origin rest]; [repeat split|].
  destruct (trace s origin); repeat split.
Qed.

Lemma fold_retrace_same_graph (ps : list CablePath) (s : Store) :
  PathTracer.same_graph s
    (fold_left (fun s' p => PathTracer.retrace is_endpoint p s') ps s).
Proof.
  revert s. induction ps as [|p ps IH]; intros s; simpl; [apply same_graph_refl|].
  eapply same_graph_trans; [apply retrace_same_graph | apply IH].
Qed.

Lemma rebuild_paths_same_graph (nodes : list Node) (s : Store) :
  PathTracer.same_graph s (PathTracer.rebuild_paths is_endpoint nodes s).
Proof. unfold PathTracer.rebuild_paths. apply fold_retrace_same_graph. Qed.

Lemma tracer_preserves_terminations :
  preserves_terminations (PathTracer.imports is_endpoint).
Proof.
  split; [|split]; simpl; intros.
  - apply create_cablepath_same_graph.
  - apply rebuild_paths_same_graph.
  - apply retrace_same_graph.
Qed.

(** *** Saving a path whose contents are the stored ones *)

Lemma cable_path_eta (p : CablePath) :
  mkCablePath (path_pk p) (_nodes p) (origins p) (destinations p) (is_active p) = p.
Proof. now destruct p. Qed.

Lemma unique_pk_row (ps : list CablePath) (p q : CablePath) :
  NoDup (map path_pk ps) -> In p ps -> In q ps -> path_pk q = path_pk p -> q = p.
Proof.
  induction ps as [|r ps IH]; intros Hnd Hp Hq Hk; [destruct Hp|].
  simpl in Hnd. apply NoDup_cons_iff in Hnd as (Hr & Hnd).
  destruct Hp as [->|Hp], Hq as [->|Hq]; auto.
  - exfalso. apply Hr. rewrite <- Hk. now apply in_map.
  - exfalso. apply Hr. rewrite Hk. now apply in_map.
Qed.

Lemma save_path_stored (p : CablePath) (s : Store) :
  PathTracer.unique_path_pks s -> In p (cable_paths s) ->
  PathTracer.save_path p s = s.
Proof.
  intros Hu Hin. unfold PathTracer.save_path, PathTracer.with_cable_paths.
  destruct s as [cs ts ps os]. simpl in *. f_equal.
  transitivity (map (fun q : CablePath => q) ps); [|apply map_id].
  apply map_ext_in. intros q Hq.
  destruct (Z.eqb (path_pk q) (path_pk p)) eqn:E; [|reflexivity].
  apply Z.eqb_eq in E. symmetry. now apply (unique_pk_row ps).
Qed.

(** *** The walk and the paths that follow from a node *)

Lemma fans_fan (s : Store) (visited : list Node) (c : Cable)
      (beyond : Node -> PathTracer.Trace) :
  forall far nodes dests active,
    PathTracer.fans is_endpoint s visited c far nodes dests active ->
    (forall t ns ds a,
        In t far ->
        PathTracer.follows is_endpoint s (t :: visited) t (Some (pk c)) ns ds a ->
        ~ In t visited ->
        beyond t = PathTracer.Traced ns ds a) ->
    fan beyond visited far = PathTracer.Traced nodes dests active.
Proof.
  intros far nodes dests active H.
  induction H as [visited c
                 |visited c t rest nodes dests active Hnv He Hrest IH
                 |visited c t rest n1 d1 a1 n2 d2 a2 Hnv He Hsub Hrest IH];
    intros Hb; simpl.
  - reflexivity.
  - unfold PathTracer.visit. apply existsb_node_eqb_not_In in Hnv.
    rewrite Hnv, He, IH; [reflexivity|].
    intros x ns ds a Hx. apply Hb. now right.
  - unfold PathTracer.visit. pose proof Hnv as Hnv'.
    apply existsb_node_eqb_not_In in Hnv'.
    rewrite Hnv', He, (Hb t n1 d1 a1 (or_introl eq_refl) Hsub Hnv), IH;
      [reflexivity|].
    intros x ns ds a Hx. apply Hb. now right.
Qed.

(** A path that follows from a node is what the walk from it gives. *)
Lemma follows_walk (s : Store) (fuel : nat) :
  forall visited n came_from nodes dests active,
    PathTracer.follows is_endpoint s visited n came_from nodes dests active ->
    (PathTracer.unvisited s visited < fuel)%nat ->
    walk fuel s visited n came_from = PathTracer.Traced nodes dests active.
Proof.
  induction fuel as [|fuel IH]; intros visited n came_from nodes dests active H Hlt;
    [lia|].
  simpl. inversion H as [v n' cf Eh|v n' cf c Eh|v n' cf c Eh|v n' cf c far ns ds a Eh Hf];
    subst; rewrite Eh; try reflexivity.
  rewrite (fans_fan s visited c _ far ns dests active Hf); [reflexivity|].
  intros t ns' ds' a' Ht Hsub Hnv. apply IH; [exact Hsub|].
  apply hop_reach in Eh as (r & _ & _ & _ & _ & Hfar). rewrite Hfar in Ht.
  pose proof (unvisited_decreases s visited t _ _ Ht Hnv). lia.
Qed.

Lemma fan_fans (s : Store) (visited : list Node) (c : Cable)
      (beyond : Node -> PathTracer.Trace) :
  (forall t ns ds a,
      beyond t = PathTracer.Traced ns ds a ->
      PathTracer.follows is_endpoint s (t :: visited) t (Some (pk c)) ns ds a) ->
  forall far nodes dests active,
    fan beyond visited far = PathTracer.Traced nodes dests active ->
    PathTracer.fans is_endpoint s visited c far nodes dests active.
Proof.
  intros Hb. induction far as [|t far IH]; intros nodes dests active H; simpl in H.
  - inversion H; subst. constructor.
  - apply join_traced in H as (n1 & d1 & a1 & n2 & d2 & a2 & Hv & Hrest & -> & -> & ->).
    unfold PathTracer.visit in Hv.
    destruct (existsb (node_eqb t) visited) eqn:Ev; [discriminate|].
    apply existsb_node_eqb_not_In in Ev.
    destruct (is_endpoint (node_type t)) eqn:Ee.
    + inversion Hv; subst. simpl. apply PathTracer.fans_endpoint; auto.
    + apply prepend_traced in Hv as (r1 & Hsub & ->). simpl.
      apply PathTracer.fans_pass_through; auto.
Qed.

(** What the walk gives follows from the node. *)
Lemma walk_follows (s : Store) (fuel : nat) :
  forall visited n came_from nodes dests active,
    walk fuel s visited n came_from = PathTracer.Traced nodes dests active ->
    PathTracer.follows is_endpoint s visited n came_from nodes dests active.
Proof.
  induction fuel as [|fuel IH]; intros visited n came_from nodes dests active H;
    [discriminate|].
  simpl in H. destruct (hop s n came_from) as [|c|c|c far] eqn:Eh.
  - inversion H; subst. now constructor.
  - inversion H; subst. now constructor.
  - inversion H; subst. now apply PathTracer.follows_no_termination.
  - apply prepend_traced in H as (rest & Hfan & ->).
    apply PathTracer.follows_link with (far := far); [exact Eh|].
    apply (fan_fans s visited c _) with (2 := Hfan).
    intros t ns ds a Hsub. now apply IH.
Qed.

Lemma follows_starts_with_link (s : Store) (visited : list Node) (n : Node)
      (came_from : option Z) (nodes dests : list Node) (active : bool) :
  PathTracer.follows is_endpoint s visited n came_from nodes dests active ->
  match hop s n came_from with
  | PathTracer.NoLink => nodes = []
  | PathTracer.NotConnected c | PathTracer.NoTermination c | PathTracer.Reach c _ =>
      exists rest, nodes = cable_node c :: rest
  end.
Proof.
  intros H. inversion H; subst;
    match goal with E : hop _ _ _ = _ |- _ => rewrite E end;
    try reflexivity; eexists; reflexivity.
Qed.

(** A stored path that agrees with the Links is what tracing from its origin
    gives, and the other way round. *)
Lemma agrees_trace (s : Store) (p : CablePath) (origin : Node) :
  origins p = [origin] ->
  (PathTracer.agrees is_endpoint s p <->
   trace s origin = PathTracer.Traced (_nodes p) (destinations p) (is_active p)).
Proof.
  intros Ho. unfold PathTracer.agrees, PathTracer.trace. split.
  - intros (o & Ho' & Hex & Hne & Hf). rewrite Ho in Ho'. inversion Ho'; subst o.
    rewrite Hex. pose proof (follows_starts_with_link _ _ _ _ _ _ _ Hf) as Hs.
    destruct (hop s origin None); [contradiction| | |];
      apply follows_walk; auto; apply unvisited_le.
  - intros H. exists origin. split; [exact Ho|].
    destruct (PathTracer.object_exists s origin); [|discriminate].
    split; [reflexivity|].
    destruct (hop s origin None) as [|c|c|c far] eqn:Eh; [discriminate| | |];
      apply walk_follows in H; (split; [|exact H]);
      pose proof (follows_starts_with_link _ _ _ _ _ _ _ H) as Hs;
      rewrite Eh in Hs; destruct Hs as (rest & ->); discriminate.
Qed.

(** *** The cycle guard *)

Lemma fan_aborted (beyond : Node -> PathTracer.Trace) (visited far : list Node)
      (t : Node) :
  In t far ->
  visit beyond visited t = PathTracer.CycleError \/
  visit beyond visited t = PathTracer.OutOfFuel ->
  fan beyond visited far = PathTracer.CycleError \/
  fan beyond visited far = PathTracer.OutOfFuel.
Proof.
  intros Hin Hv. induction far as [|x far IH]; [destruct Hin|].
  simpl. destruct Hin as [->|Hin].
  - apply join_aborted. destruct Hv; auto.
  - apply join_aborted. destruct (IH Hin); auto.
Qed.

(** A walk on which a node recurs does not get to an end: it aborts with
    [CycleError] (or runs out of fuel first). *)
Lemma recurs_walk (s : Store) (visited : list Node) (n : Node)
      (came_from : option Z) :
  PathTracer.recurs is_endpoint s visited n came_from ->
  forall fuel,
    walk fuel s visited n came_from = PathTracer.CycleError \/
    walk fuel s visited n came_from = PathTracer.OutOfFuel.
Proof.
  intros H. induction H as [visited n cf c far t Eh Ht Hv
                           |visited n cf c far t Eh Ht He Hsub IH];
    intros [|fuel]; try (now right); simpl; rewrite Eh;
    apply prepend_aborted, (fan_aborted _ visited far t Ht);
    unfold PathTracer.visit.
  - apply existsb_node_eqb_In in Hv. rewrite Hv. now left.
  - destruct (existsb (node_eqb t) visited); [now left|].
    rewrite He. apply prepend_aborted, IH.
Qed.

Lemma recurring_walk_raises (s : Store) (origin : Node) :
  PathTracer.object_exists s origin = true ->
  PathTracer.node_recurs is_endpoint s origin ->
  trace s origin = PathTracer.CycleError.
Proof.
  intros Hex Hrec. pose proof (trace_total s origin) as Htot.
  unfold PathTracer.trace in *. rewrite Hex in *.
  pose proof (recurs_walk s _ _ _ Hrec (PathTracer.enough_fuel s)) as Hw.
  assert (exists c far, hop s origin None = PathTracer.Reach c far) as (c & far & Eh).
  { inversion Hrec; subst; eauto. }
  rewrite Eh in *. destruct Hw as [Hw|Hw]; [exact Hw | contradiction].
Qed.

Lemma create_cablepath_app (l1 l2 : list Node) (s : Store) :
  PathTracer.create_cablepath is_endpoint (l1 ++ l2) s =
  PathTracer.create_cablepath is_endpoint l2
    (PathTracer.create_cablepath is_endpoint l1 s).
Proof. unfold PathTracer.create_cablepath. apply fold_left_app. Qed.

(** *** Walking after a Link has been deleted *)


Lemma filter_filter_imp {A} (p q : A -> bool) (l : list A) :
  (forall x, p x = true -> q x = true) -> filter p (filter q l) = filter p l.
Proof.
  intros Hpq. induction l as [|y l IH]; [reflexivity|].
  simpl. destruct (q y) eqn:Eq; simpl.
  - now rewrite IH.
  - destruct (p y) eqn:Ep; [|assumption].
    rewrite (Hpq _ Ep) in Eq. discriminate.
Qed.















(** *** Retracing several paths is one pass over the table *)

Lemma flat_map_ext_in {A B} (f g : A -> list B) (l : list A) :
  (forall x, In x l -> f x = g x) -> flat_map f l = flat_map g l.
Proof.
  induction l as [|x l IH]; intros H; [reflexivity|].
  simpl. rewrite (H x (or_introl eq_refl)), IH; [reflexivity|].
  intros y Hy. apply H. now right.
Qed.

Lemma flat_map_twice {A} (f g : A -> list A) (l : list A) :
  flat_map f (flat_map g l) = flat_map (fun x => flat_map f (g x)) l.
Proof.
  induction l as [|x l IH]; [reflexivity|].
  simpl. now rewrite flat_map_app, IH.
Qed.

Lemma flat_map_singletons {A} (l : list A) : flat_map (fun x => [x]) l = l.
Proof. induction l as [|x l IH]; [reflexivity|]. simpl. now rewrite IH. Qed.

Lemma rebuilt_pk (s : Store) (p x : CablePath) :
  In x (PathTracer.rebuilt is_endpoint s p) -> path_pk x = path_pk p.
Proof.
  unfold PathTracer.rebuilt. destruct (origins p) as [|o rest]; [intros []|].
  destruct (trace s o); simpl; intuition (subst; reflexivity).
Qed.

Lemma rebuilt_at_most_one (s : Store) (p : CablePath) :
  PathTracer.rebuilt is_endpoint s p = [] \/
  exists x, PathTracer.rebuilt is_endpoint s p = [x].
Proof.
  unfold PathTracer.rebuilt. destruct (origins p) as [|o rest]; [now left|].
  destruct (trace s o); [right|left|right|right]; eauto.
Qed.

Lemma rebuilt_same_graph (s s' : Store) (p : CablePath) :
  PathTracer.same_graph s s' ->
  PathTracer.rebuilt is_endpoint s' p = PathTracer.rebuilt is_endpoint s p.
Proof.
  intros Hg. unfold PathTracer.rebuilt. destruct (origins p) as [|o rest]; [reflexivity|].
  now rewrite (trace_same_graph s s' o Hg).
Qed.

Lemma with_cable_paths_same (s : Store) :
  PathTracer.with_cable_paths s (cable_paths s) = s.
Proof. now destruct s. Qed.

(** One [retrace], as a pass over the table. *)
Lemma retrace_as_pass (q : CablePath) (s : Store) :
  PathTracer.unique_path_pks s -> In q (cable_paths s) ->
  PathTracer.retrace is_endpoint q s =
  PathTracer.with_cable_paths s
    (flat_map (fun r => if Z.eqb (path_pk r) (path_pk q)
                        then PathTracer.rebuilt is_endpoint s r else [r])
              (cable_paths s)).
Proof.
  intros Hu Hq.
  assert (forall (out : list CablePath),
             PathTracer.rebuilt is_endpoint s q = out ->
             flat_map (fun r => if Z.eqb (path_pk r) (path_pk q) then out else [r])
                      (cable_paths s) =
             flat_map (fun r => if Z.eqb (path_pk r) (path_pk q)
                                then PathTracer.rebuilt is_endpoint s r else [r])
                      (cable_paths s)) as Hsame.
  { intros out Hout. apply flat_map_ext_in. intros r Hr.
    destruct (Z.eqb (path_pk r) (path_pk q)) eqn:E; [|reflexivity].
    apply Z.eqb_eq in E. now rewrite (unique_pk_row _ q r Hu Hq Hr E). }
  assert (forall l : list CablePath,
             filter (fun r => negb (Z.eqb (path_pk r) (path_pk q))) l =
             flat_map (fun r => if Z.eqb (path_pk r) (path_pk q) then [] else [r]) l)
    as Hdel.
  { induction l as [|r l IH]; [reflexivity|]. simpl.
    destruct (Z.eqb (path_pk r) (path_pk q)); simpl; now rewrite IH. }
  assert (forall (x : CablePath) (l : list CablePath),
             map (fun r => if Z.eqb (path_pk r) (path_pk x) then x else r) l =
             flat_map (fun r => if Z.eqb (path_pk r) (path_pk x) then [x] else [r]) l)
    as Hsave.
  { intros x. induction l as [|r l IH]; [reflexivity|]. simpl.
    destruct (Z.eqb (path_pk r) (path_pk x)); simpl; now rewrite IH. }
  unfold PathTracer.retrace.
  pose proof (Hsame (PathTracer.rebuilt is_endpoint s q) eq_refl) as Hr.
  unfold PathTracer.rebuilt at 1 in Hr.
  destruct (origins q) as [|o rest] eqn:Eo.
  - rewrite <- Hr. unfold PathTracer.delete_path. now rewrite Hdel.
  - destruct (trace s o) eqn:Et; rewrite <- Hr.
    + unfold PathTracer.save_path. now rewrite Hsave.
    + unfold PathTracer.delete_path. now rewrite Hdel.
    + rewrite <- (with_cable_paths_same s) at 1. f_equal.
      rewrite <- (flat_map_singletons (cable_paths s)) at 1.
      apply flat_map_ext_in. intros r Hr'.
      destruct (Z.eqb (path_pk r) (path_pk q)) eqn:E; [|reflexivity].
      apply Z.eqb_eq in E. now rewrite (unique_pk_row _ q r Hu Hq Hr' E).
    + rewrite <- (with_cable_paths_same s) at 1. f_equal.
      rewrite <- (flat_map_singletons (cable_paths s)) at 1.
      apply flat_map_ext_in. intros r Hr'.
      destruct (Z.eqb (path_pk r) (path_pk q)) eqn:E; [|reflexivity].
      apply Z.eqb_eq in E. now rewrite (unique_pk_row _ q r Hu Hq Hr' E).
Qed.

Lemma pass_keeps_unique_pks (g : CablePath -> list CablePath) (l : list CablePath) :
  (forall r x, In x (g r) -> path_pk x = path_pk r) ->
  (forall r, g r = [] \/ exists x, g r = [x]) ->
  NoDup (map path_pk l) -> NoDup (map path_pk (flat_map g l)).
Proof.
  intros Hpk Hone. induction l as [|r l IH]; intros Hnd; [constructor|].
  simpl in Hnd. apply NoDup_cons_iff in Hnd as (Hr & Hnd). simpl.
  destruct (Hone r) as [E|(x & E)]; rewrite E; simpl; [now apply IH|].
  constructor; [|now apply IH].
  rewrite (Hpk r x) by (rewrite E; now left).
  intros Hin. apply Hr. apply in_map_iff in Hin as (y & Ey & Hy).
  apply in_flat_map in Hy as (z & Hz & Hyz). rewrite <- Ey, (Hpk z y Hyz).
  now apply in_map.
Qed.

Lemma retraces_as_pass (qs : list CablePath) :
  forall s,
    PathTracer.unique_path_pks s -> NoDup (map path_pk qs) ->
    (forall q, In q qs -> In q (cable_paths s)) ->
    fold_left (fun s' p => PathTracer.retrace is_endpoint p s') qs s =
    PathTracer.with_cable_paths s
      (flat_map (fun r => if existsb (fun q => Z.eqb (path_pk q) (path_pk r)) qs
                          then PathTracer.rebuilt is_endpoint s r else [r])
                (cable_paths s)).
Proof.
  induction qs as [|q qs IH]; intros s Hu Hqs Hin.
  - simpl. now rewrite flat_map_singletons, with_cable_paths_same.
  - simpl in Hqs. apply NoDup_cons_iff in Hqs as (Hq & Hqs).
    assert (In q (cable_paths s)) as Hqin by (apply Hin; now left).
    simpl fold_left. rewrite (retrace_as_pass q s Hu Hqin).
    set (rows1 := flat_map (fun r => if Z.eqb (path_pk r) (path_pk q)
                                     then PathTracer.rebuilt is_endpoint s r else [r])
                           (cable_paths s)).
    assert (PathTracer.same_graph s (PathTracer.with_cable_paths s rows1)) as Hg
        by (repeat split).
    rewrite IH.
    + unfold PathTracer.with_cable_paths. simpl. f_equal.
      unfold rows1. rewrite flat_map_twice. apply flat_map_ext_in. intros r Hr.
      rewrite (Z.eqb_sym (path_pk q) (path_pk r)).
      destruct (Z.eqb (path_pk r) (path_pk q)) eqn:E; simpl.
      * apply Z.eqb_eq in E.
        assert (forall x, In x (PathTracer.rebuilt is_endpoint s r) ->
                          existsb (fun q' => Z.eqb (path_pk q') (path_pk x)) qs = false)
          as Hfresh.
        { intros x Hx. apply not_true_is_false. intros Hex.
          apply existsb_exists in Hex as (q' & Hq' & Eq'). apply Z.eqb_eq in Eq'.
          apply Hq. rewrite <- E, <- (rebuilt_pk s r x Hx), <- Eq'. now apply in_map. }
        destruct (rebuilt_at_most_one s r) as [Er|(x & Er)]; rewrite Er in *;
          [reflexivity|].
        simpl. rewrite (Hfresh x (or_introl eq_refl)). reflexivity.
      * rewrite app_nil_r. destruct (existsb _ qs); [|reflexivity].
        apply (rebuilt_same_graph _ _ _ Hg).
    + unfold PathTracer.unique_path_pks. simpl. unfold rows1.
      apply pass_keeps_unique_pks; [| |exact Hu].
      * intros r x. destruct (Z.eqb (path_pk r) (path_pk q)).
        -- apply rebuilt_pk.
        -- intros [<-|[]]. reflexivity.
      * intros r. destruct (Z.eqb (path_pk r) (path_pk q)).
        -- apply rebuilt_at_most_one.
        -- right. now exists r.
    + exact Hqs.
    + intros q' Hq'. simpl. unfold rows1. apply in_flat_map. exists q'.
      split; [apply Hin; now right|].
      assert (Z.eqb (path_pk q') (path_pk q) = false) as E.
      { apply Z.eqb_neq. intros E. apply Hq. rewrite <- E. now apply in_map. }
      rewrite E. now left.
Qed.

Lemma selection_as_pass (keep : CablePath -> bool) (s : Store) :
  PathTracer.unique_path_pks s ->
  fold_left (fun s' p => PathTracer.retrace is_endpoint p s')
            (filter keep (cable_paths s)) s =
  PathTracer.with_cable_paths s
    (flat_map (fun r => if keep r then PathTracer.rebuilt is_endpoint s r else [r])
              (cable_paths s)).
Proof.
  intros Hu. rewrite retraces_as_pass.
  - f_equal. apply flat_map_ext_in. intros r Hr.
    destruct (keep r) eqn:E.
    + assert (existsb (fun q => Z.eqb (path_pk q) (path_pk r))
                      (filter keep (cable_paths s)) = true) as ->; [|reflexivity].
      apply existsb_exists. exists r. split; [|apply Z.eqb_refl].
      apply filter_In. now split.
    + assert (existsb (fun q => Z.eqb (path_pk q) (path_pk r))
                      (filter keep (cable_paths s)) = false) as ->; [|reflexivity].
      apply not_true_is_false. intros H. apply existsb_exists in H as (q & Hq & Eq).
      apply filter_In in Hq as (Hq & Hk). apply Z.eqb_eq in Eq.
      rewrite (unique_pk_row _ r q Hu Hr Hq Eq) in Hk. congruence.
  - exact Hu.
  - clear -Hu. unfold PathTracer.unique_path_pks in Hu.
    induction (cable_paths s) as [|r l IH]; [constructor|].
    simpl in Hu. apply NoDup_cons_iff in Hu as (Hr & Hu). simpl.
    destruct (keep r); [|now apply IH]. simpl. constructor; [|now apply IH].
    intros Hin. apply Hr. apply in_map_iff in Hin as (y & E & Hy).
    apply filter_In in Hy as (Hy & _). rewrite <- E. now apply in_map.
  - intros q Hq. now apply filter_In in Hq as (Hq & _).
Qed.

(** [rebuild_paths], under unique keys: every path that holds one of the
    nodes is replaced by what retracing it leaves, the others stay. *)
Lemma rebuild_paths_as_pass (nodes : list Node) (s : Store) :
  PathTracer.unique_path_pks s ->
  PathTracer.rebuild_paths is_endpoint nodes s =
  PathTracer.with_cable_paths s
    (flat_map (fun r => if PathTracer.contains_any nodes r
                        then PathTracer.rebuilt is_endpoint s r else [r])
              (cable_paths s)).
Proof. intros Hu. unfold PathTracer.rebuild_paths. now apply selection_as_pass. Qed.

(** *** The paths [create_cablepath] adds *)

Lemma completes_same_graph (s s' : Store) (o : Node) :
  PathTracer.same_graph s s' ->
  PathTracer.completes is_endpoint s' o = PathTracer.completes is_endpoint s o.
Proof.
  intros Hg. unfold PathTracer.completes. now rewrite (trace_same_graph s s' o Hg).
Qed.

Lemma create_cablepath_adds (nodes : list Node) :
  forall s,
  exists new,
    cable_paths (PathTracer.create_cablepath is_endpoint nodes s) =
      cable_paths s ++ new /\
    map origins new =
      map (fun o => [o]) (filter (PathTracer.completes is_endpoint s) nodes) /\
    Forall (fun p => exists o,
                origins p = [o] /\
                trace s o = PathTracer.Traced (_nodes p) (destinations p) (is_active p))
           new.
Proof.
  induction nodes as [|o nodes IH]; intros s.
  - exists []. simpl. rewrite app_nil_r. repeat split. constructor.
  - unfold PathTracer.create_cablepath. simpl fold_left.
    fold (PathTracer.create_cablepath is_endpoint nodes
            (PathTracer.create_path is_endpoint s o)).
    destruct (IH (PathTracer.create_path is_endpoint s o)) as (new & Hrows & Ho & Hall).
    pose proof (create_path_same_graph s o) as Hg.
    assert (filter (PathTracer.completes is_endpoint
                      (PathTracer.create_path is_endpoint s o)) nodes =
            filter (PathTracer.completes is_endpoint s) nodes) as Hf.
    { apply filter_ext. intros x. now apply completes_same_graph. }
    assert (Forall (fun p => exists o0,
                        origins p = [o0] /\
                        trace s o0 = PathTracer.Traced (_nodes p) (destinations p)
                                                       (is_active p)) new) as Hall'.
    { eapply Forall_impl; [|exact Hall]. intros p (o0 & Hp & Ht). exists o0.
      split; [exact Hp|]. now rewrite <- (trace_same_graph s _ o0 Hg). }
    rewrite Hf in Ho. rewrite Hrows. simpl filter.
    unfold PathTracer.create_path, PathTracer.completes.
    destruct (trace s o) as [ns ds a| | |] eqn:Et.
    + exists (mkCablePath (PathTracer.next_path_pk s) ns [o] ds a :: new).
      simpl. rewrite <- app_assoc. split; [reflexivity|]. split; [now rewrite Ho|].
      constructor; [|exact Hall']. exists o. now split.
    + exists new. auto.
    + exists new. auto.
    + exists new. auto.
Qed.

Lemma max_pk_bound (l : list Z) (x : Z) : In x l -> x <= fold_right Z.max 0 l.
Proof.
  induction l as [|y l IH]; intros Hin; [destruct Hin|].
  simpl. destruct Hin as [->|Hin]; [lia|]. specialize (IH Hin). lia.
Qed.

Lemma unique_with_new_key (l : list Z) (x : Z) :
  NoDup l -> ~ In x l -> NoDup (l ++ [x]).
Proof.
  induction l as [|y l IH]; intros Hnd Hx; simpl.
  - constructor; [intros []|constructor].
  - apply NoDup_cons_iff in Hnd as (Hy & Hnd). constructor.
    + intros Hin. apply in_app_or in Hin as [Hin|[->|[]]]; [contradiction|].
      apply Hx. now left.
    + apply IH; [exact Hnd|]. intros Hin. apply Hx. now right.
Qed.

(** The new paths get keys of their own. *)
Lemma create_cablepath_unique_pks (nodes : list Node) :
  forall s,
    PathTracer.unique_path_pks s ->
    PathTracer.unique_path_pks (PathTracer.create_cablepath is_endpoint nodes s).
Proof.
  induction nodes as [|o nodes IH]; intros s Hu; [exact Hu|].
  unfold PathTracer.create_cablepath. simpl fold_left. apply IH.
  unfold PathTracer.create_path. destruct (trace s o); try exact Hu.
  unfold PathTracer.unique_path_pks in *. simpl. rewrite map_app. simpl.
  apply unique_with_new_key; [exact Hu|].
  intros Hin. apply max_pk_bound in Hin.
  unfold PathTracer.next_path_pk in Hin. lia.
Qed.

End TracerFacts.

(** *** The two scenarios of the design document *)

Example scenario_not_connected :
  PathTracer.trace Examples.endpoint_models Examples.chain_planned (Examples.iface 1)
  = PathTracer.Traced
      [cable_node Examples.link1; Examples.frontport 5; cable_node Examples.link2]
      [] false.
Proof. reflexivity. Qed.

Example scenario_reconnected :
  update_connected_endpoints Examples.tracer Examples.link2_reconnected false false
                             (mkWorld Examples.chain_reconnected [])
  = Val tt
      (mkWorld
         (PathTracer.with_cable_paths Examples.chain_reconnected
            [mkCablePath 1
               [cable_node Examples.link1; Examples.frontport 5;
                cable_node Examples.link2]
               [Examples.iface 1] [Examples.iface 2] true])
         [Call_rebuild_paths [cable_node Examples.link2_reconnected]]).
Proof. reflexivity. Qed.

(** ** The update orchestrator *)

Section ReceiverFacts.

Context (I : Imports).

Lemma dispatch_end_runs (nodes : list Node) (w : World) :
  dispatch_end I nodes w =
  Val tt (mkWorld (run_calls I (end_calls I nodes) (db w))
                  (calls w ++ end_calls I nodes)).
Proof.
  destruct w as [s cs]. destruct nodes as [|first rest]; simpl.
  - unfold ret. now rewrite app_nil_r.
  - unfold bind, index, ret, invoke; simpl.
    destruct (PathEndpoint I (node_type first)); reflexivity.
Qed.

Lemma run_calls_app (cs1 cs2 : list Call) (s : Store) :
  run_calls I (cs1 ++ cs2) s = run_calls I cs2 (run_calls I cs1 s).
Proof. unfold run_calls. apply fold_left_app. Qed.

Lemma for_each_dispatch_runs (ends : list (list Node)) (w : World) :
  for_each ends (dispatch_end I) w =
  Val tt (mkWorld (run_calls I (flat_map (end_calls I) ends) (db w))
                  (calls w ++ flat_map (end_calls I) ends)).
Proof.
  revert w. induction ends as [|nodes ends IH]; intros w.
  - destruct w; simpl. unfold ret. now rewrite app_nil_r.
  - simpl. unfold bind. rewrite dispatch_end_runs, IH. simpl.
    now rewrite run_calls_app, app_assoc.
Qed.

Lemma created_runs (instance : Cable) (w : World) :
  update_connected_endpoints I instance true false w =
  Val tt (mkWorld (run_calls I (created_calls I instance (db w)) (db w))
                  (calls w ++ created_calls I instance (db w))).
Proof.
  unfold update_connected_endpoints, bind, get_db.
  rewrite for_each_dispatch_runs. unfold created_calls, end_nodes. simpl.
  now rewrite app_nil_r.
Qed.

Lemma for_each_retrace_runs (ps : list CablePath) (w : World) :
  for_each ps (fun p => invoke (Call_retrace p) (retrace I p)) w =
  Val tt (mkWorld (fold_left (fun s p => retrace I p s) ps (db w))
                  (calls w ++ map Call_retrace ps)).
Proof.
  revert w. induction ps as [|p ps IH]; intros w.
  - destruct w; simpl. unfold ret. now rewrite app_nil_r.
  - simpl. unfold bind, invoke at 1. rewrite IH. simpl.
    now rewrite <- app_assoc.
Qed.

Lemma end_calls_nonempty (nodes : list Node) :
  Forall (fun c => call_nodes c = Some nodes /\ nodes <> []) (end_calls I nodes).
Proof.
  destruct nodes as [|first rest]; simpl; [constructor|].
  destruct (PathEndpoint I (node_type first)); repeat constructor; discriminate.
Qed.

Lemma run_calls_terminations (cs : list Call) (s : Store) :
  preserves_terminations I ->
  cable_terminations (run_calls I cs s) = cable_terminations s.
Proof.
  intros (Hc & Hr & Ht). revert s. induction cs as [|c cs IH]; intros s; [reflexivity|].
  simpl. change (fold_left (run_call I) cs (run_call I s c))
    with (run_calls I cs (run_call I s c)).
  rewrite IH. destruct c; simpl; auto.
Qed.

Lemma fold_retrace_terminations (ps : list CablePath) (s : Store) :
  preserves_terminations I ->
  cable_terminations (fold_left (fun s' p => retrace I p s') ps s) = cable_terminations s.
Proof.
  intros (_ & _ & Ht). revert s. induction ps as [|p ps IH]; intros s; [reflexivity|].
  simpl. now rewrite IH, Ht.
Qed.

End ReceiverFacts.

(** C1 (as stated, refuted): a cable created by a raw save (fixture import)
    has a path endpoint on its B end and a pass-through node on its A end,
    yet [update_connected_endpoints] returns before grouping anything: no
    call is made and the store is as it was. *)
Lemma created_raw_makes_no_call :
  created_calls Examples.tracer Examples.link2 Examples.chain_no_paths =
    [Call_rebuild_paths [Examples.frontport 5];
     Call_create_cablepath [Examples.iface 2]] /\
  update_connected_endpoints Examples.tracer Examples.link2 true true
                             (mkWorld Examples.chain_no_paths []) =
    Val tt (mkWorld Examples.chain_no_paths []).
Proof. split; vm_compute; reflexivity. Qed.

(** C1 (amended): a raw save makes [update_connected_endpoints] return at
    once, whatever the cable: no call, the world as it was.  When a cable is
    newly created and the save is not raw, it groups the terminations by
    cable end (A, then B) as they are stored when it starts and, for every
    non-empty end, calls [create_cablepath] on that end's node list if the
    first node is a path endpoint and [rebuild_paths] on it otherwise; these
    are all the calls it makes, in that order, and the store is the result of
    running them.  As to the callees, modelled from the design document:
    [create_cablepath] appends one new path for each listed origin whose
    walk comes to an end, in order, each with that origin as its only origin
    and agreeing with the Links, and leaves Links and terminations alone;
    [rebuild_paths], under unique path keys, replaces every stored path that
    holds one of the nodes by what retracing it leaves and keeps the others. *)
Theorem created_dispatches_each_end (I : Imports) (is_endpoint : ContentType -> bool)
        (instance : Cable) (w : World) :
  (forall created, update_connected_endpoints I instance created true w = Val tt w) /\
  update_connected_endpoints I instance true false w =
    Val tt (mkWorld (run_calls I (created_calls I instance (db w)) (db w))
                    (calls w ++ created_calls I instance (db w))) /\
  created_calls I instance (db w) =
    end_calls I (map termination (terminations_filter instance End_A (db w))) ++
    end_calls I (map termination (terminations_filter instance End_B (db w))) /\
  (forall first rest,
      end_calls I (first :: rest) =
      [if PathEndpoint I (node_type first)
       then Call_create_cablepath (first :: rest)
       else Call_rebuild_paths (first :: rest)]) /\
  end_calls I [] = [] /\
  (forall nodes s,
      PathTracer.same_graph s (PathTracer.create_cablepath is_endpoint nodes s) /\
      exists new,
        cable_paths (PathTracer.create_cablepath is_endpoint nodes s) =
          cable_paths s ++ new /\
        map origins new =
          map (fun o => [o]) (filter (PathTracer.completes is_endpoint s) nodes) /\
        Forall (PathTracer.agrees is_endpoint s) new) /\
  (forall nodes s,
      PathTracer.unique_path_pks s ->
      PathTracer.rebuild_paths is_endpoint nodes s =
      PathTracer.with_cable_paths s
        (flat_map (fun r => if existsb (fun n => existsb (node_eqb n) (_nodes r)) nodes
                            then PathTracer.rebuilt is_endpoint s r else [r])
                  (cable_paths s))).
Proof.
  split; [reflexivity|].
  split; [apply created_runs|].
  split; [reflexivity|]. split; [|split; [reflexivity|split]].
  - intros first rest. simpl. now destruct (PathEndpoint I (node_type first)).
  - intros nodes s. split; [apply create_cablepath_same_graph|].
    destruct (create_cablepath_adds is_endpoint nodes s) as (new & Hrows & Ho & Hall).
    exists new. split; [exact Hrows|]. split; [exact Ho|].
    eapply Forall_impl; [|exact Hall]. intros p (o & Hp & Ht).
    now apply (agrees_trace is_endpoint s p o Hp).
  - intros nodes s Hu. now apply rebuild_paths_as_pass.
Qed.

(** A run of C1's theorem: cable 2 of the chain is created; its A end is
    front port 5, held by no path yet, its B end is interface 2, from where
    a path to interface 1 is traced. *)
Lemma created_dispatches_each_end_witness :
  update_connected_endpoints Examples.tracer Examples.link2 true false
                             (mkWorld Examples.chain_no_paths []) =
    Val tt
      (mkWorld
         (PathTracer.with_cable_paths Examples.chain_no_paths
            [mkCablePath 1
               [cable_node Examples.link2; Examples.frontport 5;
                cable_node Examples.link1]
               [Examples.iface 2] [Examples.iface 1] true])
         [Call_rebuild_paths [Examples.frontport 5];
          Call_create_cablepath [Examples.iface 2]]).
Proof.
  destruct (created_dispatches_each_end Examples.tracer Examples.endpoint_models
              Examples.link2 (mkWorld Examples.chain_no_paths []))
    as (_ & Hrun & _).
  rewrite Hrun. reflexivity.
Defined.

(** C2 (as stated, refuted): the status of an existing cable goes from
    "connected" to "planned" in a raw save; the two cable paths through it
    stay active. *)
Lemma status_change_raw_keeps_paths_active :
  let s := mkStore [Examples.link1; Examples.link2_planned]
                   Examples.chain_terminations
                   [Examples.path_1_to_2; Examples.path_2_to_1]
                   Examples.chain_objects in
  status Examples.link2_planned <> _orig_status Examples.link2_planned /\
  status Examples.link2_planned <> STATUS_CONNECTED /\
  map (nodes_contains (cable_node Examples.link2_planned)) (cable_paths s) =
    [true; true] /\
  exists w',
    update_connected_endpoints Examples.tracer Examples.link2_planned false true
                               (mkWorld s []) = Val tt w' /\
    map is_active (cable_paths (db w')) = [true; true].
Proof.
  cbv zeta. split; [discriminate|]. split; [discriminate|].
  split; [vm_compute; reflexivity|].
  eexists. split; [vm_compute; reflexivity|]. reflexivity.
Qed.

(** C2 (amended): a raw save makes [update_connected_endpoints] return at
    once, whatever the cable: nothing is updated.  When an existing cable is
    saved, not raw, with a status that differs from its previous one and is
    not "connected", it makes no call to the tracer and leaves cables,
    terminations and termination objects as they are; every cable path keeps
    its key, node sequence, origins and destinations, and its [is_active] is
    false if its node sequence contains the cable and unchanged otherwise. *)
Theorem status_not_connected_deactivates (I : Imports) (instance : Cable) (w : World) :
  (forall created, update_connected_endpoints I instance created true w = Val tt w) /\
  (status instance <> _orig_status instance ->
   status instance <> STATUS_CONNECTED ->
   exists w',
     update_connected_endpoints I instance false false w = Val tt w' /\
     calls w' = calls w /\
     cables (db w') = cables (db w) /\
     cable_terminations (db w') = cable_terminations (db w) /\
     termination_objects (db w') = termination_objects (db w) /\
     Forall2 (fun p q =>
                same_shape p q /\
                is_active q = if existsb (node_eqb (cable_node instance)) (_nodes p)
                              then false else is_active p)
             (cable_paths (db w)) (cable_paths (db w'))).
Proof.
  split; [reflexivity|].
  intros Hchg Hnc.
  unfold update_connected_endpoints.
  apply String.eqb_neq in Hchg. apply String.eqb_neq in Hnc.
  rewrite Hchg, Hnc. simpl.
  eexists. split; [reflexivity|]. simpl.
  repeat (split; [reflexivity|]).
  induction (cable_paths (db w)) as [|p ps IH]; simpl; constructor; auto.
  unfold nodes_contains.
  destruct (existsb (node_eqb (cable_node instance)) (_nodes p));
    unfold same_shape; simpl; auto.
Qed.

(** A run of C2's theorem: cable 2 of the chain goes to "planned"; both
    paths hold it and both end up inactive, with their nodes as they were. *)
Lemma status_not_connected_deactivates_witness :
  update_connected_endpoints Examples.tracer Examples.link2_planned false false
                             (mkWorld Examples.chain []) =
    Val tt
      (mkWorld
         (PathTracer.with_cable_paths Examples.chain
            [set_is_active false Examples.path_1_to_2;
             set_is_active false Examples.path_2_to_1])
         []).
Proof.
  destruct (status_not_connected_deactivates Examples.tracer Examples.link2_planned
              (mkWorld Examples.chain [])) as (_ & Hrun).
  destruct Hrun as (w' & Hrun & _); [discriminate | discriminate |].
  rewrite Hrun. vm_compute in Hrun. inversion Hrun. reflexivity.
Defined.

(** C3 (as stated, refuted): the status of an existing cable goes from
    "planned" to "connected" in a raw save; [rebuild_paths] is not called. *)
Lemma reconnect_raw_makes_no_call :
  status Examples.link2_reconnected <> _orig_status Examples.link2_reconnected /\
  status Examples.link2_reconnected = STATUS_CONNECTED /\
  update_connected_endpoints Examples.tracer Examples.link2_reconnected false true
                             (mkWorld Examples.chain []) =
    Val tt (mkWorld Examples.chain []).
Proof. split; [discriminate|]. split; reflexivity. Qed.

(** C3 (amended): a raw save makes [update_connected_endpoints] return at
    once, whatever the cable: [rebuild_paths] is not called.  When an
    existing cable is saved, not raw, with a status that differs from its
    previous one and is "connected", it makes exactly one call,
    [rebuild_paths([instance])], and the store is what that call returns (it
    does not write [is_active] itself).  With [rebuild_paths] as modelled
    from the design document and unique path keys, that store has the Links
    and terminations it had, every path whose node sequence holds the cable
    replaced by what retracing it leaves, and every other path as it was; a
    replaced path whose walk comes to an end keeps its key and origin and
    agrees with the Links as they are now. *)
Theorem status_connected_rebuilds (I : Imports) (is_endpoint : ContentType -> bool)
        (instance : Cable) (w : World) :
  (forall created, update_connected_endpoints I instance created true w = Val tt w) /\
  (status instance <> _orig_status instance ->
   status instance = STATUS_CONNECTED ->
   update_connected_endpoints I instance false false w =
     Val tt (mkWorld (rebuild_paths I [cable_node instance] (db w))
                     (calls w ++ [Call_rebuild_paths [cable_node instance]]))) /\
  (forall s,
      PathTracer.unique_path_pks s ->
      let s' := PathTracer.rebuild_paths is_endpoint [cable_node instance] s in
      PathTracer.same_graph s s' /\
      cable_paths s' =
        flat_map (fun r => if existsb (node_eqb (cable_node instance)) (_nodes r)
                           then PathTracer.rebuilt is_endpoint s r else [r])
                 (cable_paths s) /\
      (forall r origin,
          origins r = [origin] ->
          PathTracer.completes is_endpoint s origin = true ->
          exists x,
            PathTracer.rebuilt is_endpoint s r = [x] /\
            path_pk x = path_pk r /\ origins x = [origin] /\
            PathTracer.agrees is_endpoint s' x)).
Proof.
  split; [reflexivity|]. split.
  - intros Hchg Hc. unfold update_connected_endpoints.
    apply String.eqb_neq in Hchg. apply String.eqb_eq in Hc.
    rewrite Hchg, Hc. reflexivity.
  - intros s Hu. cbv zeta.
    pose proof (rebuild_paths_same_graph is_endpoint [cable_node instance] s) as Hg.
    split; [exact Hg|]. split.
    + rewrite rebuild_paths_as_pass by assumption. simpl.
      apply flat_map_ext_in. intros r _. unfold PathTracer.contains_any, nodes_contains.
      simpl. now rewrite orb_false_r.
    + intros r origin Ho Hc. unfold PathTracer.rebuilt, PathTracer.completes in *.
      rewrite Ho. destruct (PathTracer.trace is_endpoint s origin) as [ns ds a| | |] eqn:Et;
        try discriminate.
      eexists. split; [reflexivity|]. simpl. split; [reflexivity|].
      split; [reflexivity|].
      apply (agrees_trace is_endpoint _ _ origin); [reflexivity|]. simpl.
      now rewrite (trace_same_graph is_endpoint s _ origin Hg).
Qed.

(** A run of C3's theorem, the second scenario of the design document: cable
    2 comes back to "connected"; the path from interface 1, which stopped on
    it, is rebuilt in place and reaches interface 2. *)
Lemma status_connected_rebuilds_witness :
  update_connected_endpoints Examples.tracer Examples.link2_reconnected false false
                             (mkWorld Examples.chain_reconnected []) =
    Val tt
      (mkWorld
         (PathTracer.with_cable_paths Examples.chain_reconnected
            [mkCablePath 1
               [cable_node Examples.link1; Examples.frontport 5;
                cable_node Examples.link2]
               [Examples.iface 1] [Examples.iface 2] true])
         [Call_rebuild_paths [cable_node Examples.link2_reconnected]]).
Proof.
  destruct (status_connected_rebuilds Examples.tracer Examples.endpoint_models
              Examples.link2_reconnected (mkWorld Examples.chain_reconnected []))
    as (_ & Hrun & _).
  rewrite Hrun by (discriminate || reflexivity).
  reflexivity.
Defined.

(** C5: when a cable termination is deleted, [nullify_connected_endpoints]
    sets [_link_peer_type] and [_link_peer_id] to [None] on the object the
    termination pointed to (same model, same key) and changes nothing else:
    no call to the tracer, cables, terminations and cable paths as they were,
    every other object untouched. *)
Theorem nullify_clears_link_peer_only (instance : CableTermination) (w : World) :
  exists w',
    nullify_connected_endpoints instance w = Val tt w' /\
    calls w' = calls w /\
    cables (db w') = cables (db w) /\
    cable_terminations (db w') = cable_terminations (db w) /\
    cable_paths (db w') = cable_paths (db w) /\
    Forall2 (fun o o' =>
               object_type o' = object_type o /\ object_pk o' = object_pk o /\
               if String.eqb (object_type o) (termination_type instance)
                  && Z.eqb (object_pk o) (termination_id instance)
               then _link_peer_type o' = None /\ _link_peer_id o' = None
               else o' = o)
            (termination_objects (db w)) (termination_objects (db w')).
Proof.
  eexists. split; [reflexivity|]. simpl.
  repeat (split; [reflexivity|]).
  induction (termination_objects (db w)) as [|o os IH]; simpl; constructor; auto.
  destruct (String.eqb (object_type o) (termination_type instance)
            && Z.eqb (object_pk o) (termination_id instance)); simpl; auto.
Qed.

(** C9: when an existing cable is saved with a status equal to its previous
    one, [update_connected_endpoints] does nothing at all: it makes no call
    and the store, cable paths included, is the one it started from. *)
Theorem same_status_changes_nothing (I : Imports) (instance : Cable)
        (raw : bool) (w : World) :
  status instance = _orig_status instance ->
  update_connected_endpoints I instance false raw w = Val tt w.
Proof.
  intros Hs. unfold update_connected_endpoints.
  apply String.eqb_eq in Hs. rewrite Hs. now destruct raw.
Qed.

(** A run of C9's theorem: cable 1 of the chain saved again. *)
Lemma same_status_changes_nothing_witness :
  update_connected_endpoints Examples.tracer Examples.link1 false false
                             (mkWorld Examples.chain []) =
    Val tt (mkWorld Examples.chain []).
Proof.
  apply (same_status_changes_nothing Examples.tracer Examples.link1 false
           (mkWorld Examples.chain [])).
  reflexivity.
Defined.

(** C10: for a newly created cable, [update_connected_endpoints] never
    raises [IndexError]: it returns with the calls of the ends recorded (none
    on a raw save) and the store those calls leave; every such call is on a
    non-empty node list; and when one end has no termination, no call is
    made for that end while the other end gets its call as usual:
    [create_cablepath] on its node list if its first node is a path
    endpoint, [rebuild_paths] on it otherwise, and that call is the only
    one made. *)
Theorem empty_end_is_skipped (I : Imports) (instance : Cable)
        (raw : bool) (w : World) :
  update_connected_endpoints I instance true raw w =
    Val tt (if raw then w
            else mkWorld (run_calls I (created_calls I instance (db w)) (db w))
                         (calls w ++ created_calls I instance (db w))) /\
  Forall (fun c => exists nodes, call_nodes c = Some nodes /\ nodes <> [])
         (created_calls I instance (db w)) /\
  (forall e,
      end_nodes instance e (db w) = [] ->
      end_calls I (end_nodes instance e (db w)) = [] /\
      created_calls I instance (db w) =
        end_calls I (end_nodes instance (opposite e) (db w)) /\
      update_connected_endpoints I instance true false w =
        Val tt (mkWorld (run_calls I (end_calls I (end_nodes instance (opposite e) (db w)))
                                   (db w))
                        (calls w ++ end_calls I (end_nodes instance (opposite e) (db w)))) /\
      (forall first rest,
          end_nodes instance (opposite e) (db w) = first :: rest ->
          update_connected_endpoints I instance true false w =
            Val tt
              (if PathEndpoint I (node_type first)
               then mkWorld (create_cablepath I (first :: rest) (db w))
                            (calls w ++ [Call_create_cablepath (first :: rest)])
               else mkWorld (rebuild_paths I (first :: rest) (db w))
                            (calls w ++ [Call_rebuild_paths (first :: rest)])))).
Proof.
  split; [|split].
  - destruct raw; [reflexivity | apply created_runs].
  - unfold created_calls. apply Forall_app. split.
    + eapply Forall_impl; [|apply end_calls_nonempty].
      intros c Hc. eexists. exact Hc.
    + eapply Forall_impl; [|apply end_calls_nonempty].
      intros c Hc. eexists. exact Hc.
  - intros e He.
    assert (created_calls I instance (db w) =
            end_calls I (end_nodes instance (opposite e) (db w))) as Hother.
    { unfold created_calls. destruct e; simpl opposite; rewrite He; simpl.
      - reflexivity.
      - now rewrite app_nil_r. }
    split; [now rewrite He|]. split; [exact Hother|]. split.
    + rewrite created_runs. now rewrite Hother.
    + intros first rest Hfr. rewrite created_runs, Hother, Hfr. simpl.
      now destruct (PathEndpoint I (node_type first)).
Qed.

(** A run of C10's theorem: cable 3 has no A end; its B end, interface 7,
    gets its [create_cablepath] call and a path of its own. *)
Lemma empty_end_is_skipped_witness :
  end_nodes Examples.link3 End_A Examples.half_open = [] /\
  update_connected_endpoints Examples.tracer Examples.link3 true false
                             (mkWorld Examples.half_open []) =
    Val tt
      (mkWorld
         (PathTracer.with_cable_paths Examples.half_open
            [mkCablePath 1 [cable_node Examples.link3] [Examples.iface 7] [] true])
         [Call_create_cablepath [Examples.iface 7]]).
Proof.
  split; [reflexivity|].
  destruct (empty_end_is_skipped Examples.tracer Examples.link3 false
              (mkWorld Examples.half_open [])) as (_ & _ & Hskip).
  destruct (Hskip End_A eq_refl) as (_ & _ & _ & Hother).
  rewrite (Hother (Examples.iface 7) [] eq_refl). reflexivity.
Defined.

(** C6: as long as the imported tracer functions leave the Termination
    References alone, no receiver changes them: saving a cable (existing or
    new, raw or not), deleting a cable and deleting a termination all end
    with the [cable_terminations] table they started from, so every end of
    every cable keeps its terminations; and a save of an existing cable
    whose status has not changed does nothing. *)
Theorem terminations_never_mutated (I : Imports) (instance : Cable)
        (deleted : CableTermination) (created raw : bool) (w : World) :
  preserves_terminations I ->
  (exists w',
      update_connected_endpoints I instance created raw w = Val tt w' /\
      cable_terminations (db w') = cable_terminations (db w) /\
      (forall c e, terminations_filter c e (db w') = terminations_filter c e (db w)) /\
      (created = false -> status instance = _orig_status instance -> w' = w)) /\
  (exists w',
      retrace_cable_paths I instance w = Val tt w' /\
      cable_terminations (db w') = cable_terminations (db w)) /\
  (exists w',
      nullify_connected_endpoints deleted w = Val tt w' /\
      cable_terminations (db w') = cable_terminations (db w)).
Proof.
  intros HI.
  assert (forall w', (exists w'', w' = Val tt w'' /\
                       cable_terminations (db w'') = cable_terminations (db w)) ->
                     (created = false -> status instance = _orig_status instance ->
                      w' = Val tt w) ->
                     exists w'',
                       w' = Val tt w'' /\
                       cable_terminations (db w'') = cable_terminations (db w) /\
                       (forall c e, terminations_filter c e (db w'') =
                                    terminations_filter c e (db w)) /\
                       (created = false -> status instance = _orig_status instance ->
                        w'' = w)) as Hpack.
  { intros r (w'' & -> & Ht) Hsame. exists w''. split; [reflexivity|].
    split; [assumption|]. split.
    - intros c e. unfold terminations_filter. now rewrite Ht.
    - intros Hc Hs. specialize (Hsame Hc Hs). now inversion Hsame. }
  split; [|split].
  - apply Hpack.
    + destruct raw; [exists w; split; reflexivity|].
      destruct created.
      * rewrite created_runs. eexists. split; [reflexivity|]. simpl.
        now apply run_calls_terminations.
      * unfold update_connected_endpoints.
        destruct (negb (String.eqb (status instance) (_orig_status instance)));
          [|exists w; split; reflexivity].
        destruct (negb (String.eqb (status instance) STATUS_CONNECTED)).
        -- eexists. split; reflexivity.
        -- eexists. split; [reflexivity|]. simpl. apply HI.
    + intros -> Hs. unfold update_connected_endpoints.
      apply String.eqb_eq in Hs. rewrite Hs. now destruct raw.
  - unfold retrace_cable_paths, bind, get_db. rewrite for_each_retrace_runs.
    eexists. split; [reflexivity|]. simpl. now apply fold_retrace_terminations.
  - eexists. split; reflexivity.
Qed.

(** A run of C6's theorem with the modelled tracer: cable 2 of the chain
    comes back to "connected" and the paths through it are rebuilt. *)
Lemma terminations_never_mutated_witness :
  exists w',
    update_connected_endpoints Examples.tracer Examples.link2_reconnected false false
                               (mkWorld Examples.chain []) = Val tt w' /\
    cable_terminations (db w') = Examples.chain_terminations.
Proof.
  destruct (terminations_never_mutated Examples.tracer Examples.link2_reconnected
              (Examples.term 1 End_A (Examples.iface 1)) false false
              (mkWorld Examples.chain [])
              (tracer_preserves_terminations Examples.endpoint_models))
    as ((w' & Hrun & Hterms & _) & _).
  exists w'. split; [exact Hrun | exact Hterms].
Defined.

(** The path from interface 1 to interface 2 of the chain agrees with the
    Links: cable 1 leads to front port 5, a pass-through node, and cable 2
    from there to interface 2, an endpoint. *)
Lemma chain_path_agrees :
  PathTracer.agrees Examples.endpoint_models Examples.chain Examples.path_1_to_2.
Proof.
  exists (Examples.iface 1).
  split; [reflexivity|]. split; [reflexivity|]. split; [discriminate|].
  apply (PathTracer.follows_link Examples.endpoint_models Examples.chain
           [Examples.iface 1] (Examples.iface 1) None Examples.link1
           [Examples.frontport 5]); [reflexivity|].
  apply (PathTracer.fans_pass_through Examples.endpoint_models Examples.chain
           [Examples.iface 1] Examples.link1 (Examples.frontport 5) []
           [cable_node Examples.link2] [Examples.iface 2] true [] [] true).
  - intros [H|[]]. discriminate H.
  - reflexivity.
  - apply (PathTracer.follows_link Examples.endpoint_models Examples.chain
             [Examples.frontport 5; Examples.iface 1] (Examples.frontport 5) (Some 1)
             Examples.link2 [Examples.iface 2]); [reflexivity|].
    apply (PathTracer.fans_endpoint Examples.endpoint_models Examples.chain
             [Examples.frontport 5; Examples.iface 1] Examples.link2
             (Examples.iface 2) [] [] [] true).
    + intros [H|[H|[]]]; discriminate H.
    + reflexivity.
    + constructor.
  - constructor.
Qed.

Lemma chain_unique_path_pks : PathTracer.unique_path_pks Examples.chain.
Proof.
  unfold PathTracer.unique_path_pks. simpl.
  repeat constructor; simpl; intuition discriminate.
Qed.

(** C7: retracing a stored CablePath whose contents agree with the current
    Link and termination state (its node sequence, destinations and
    [is_active] are those that follow from its origin along the Links as
    they are) changes nothing: under unique path keys the store after
    [retrace] is the store before.  For any path, a second [retrace] changes
    nothing more, and the row a completed retrace leaves agrees with the
    Links. *)
Theorem retrace_idempotent (is_endpoint : ContentType -> bool)
        (s : Store) (p : CablePath) :
  (PathTracer.unique_path_pks s ->
   In p (cable_paths s) ->
   PathTracer.agrees is_endpoint s p ->
   PathTracer.retrace is_endpoint p s = s) /\
  PathTracer.retrace is_endpoint p (PathTracer.retrace is_endpoint p s) =
    PathTracer.retrace is_endpoint p s /\
  (forall origin q,
      origins p = [origin] ->
      PathTracer.completes is_endpoint s origin = true ->
      In q (cable_paths (PathTracer.retrace is_endpoint p s)) ->
      path_pk q = path_pk p ->
      PathTracer.agrees is_endpoint (PathTracer.retrace is_endpoint p s) q).
Proof.
  split; [|split].
  - intros Hu Hin Hag. pose proof Hag as (origin & Ho & _).
    apply (agrees_trace is_endpoint s p origin Ho) in Hag.
    unfold PathTracer.retrace. rewrite Ho, Hag, <- Ho, cable_path_eta.
    now apply save_path_stored.
  - assert (forall origin,
               PathTracer.trace is_endpoint (PathTracer.retrace is_endpoint p s) origin =
               PathTracer.trace is_endpoint s origin) as Ht.
    { intros origin. apply trace_same_graph, retrace_same_graph. }
    unfold PathTracer.retrace in *.
    destruct (origins p) as [|origin rest] eqn:Eo.
    + unfold PathTracer.delete_path, PathTracer.with_cable_paths. simpl. f_equal.
      now apply filter_filter_imp.
    + specialize (Ht origin).
      destruct (PathTracer.trace is_endpoint s origin) as [ns ds a| | |] eqn:Et;
        rewrite Ht.
      * unfold PathTracer.save_path, PathTracer.with_cable_paths. simpl. f_equal.
        rewrite map_map. apply map_ext. intros q.
        destruct (Z.eqb (path_pk q) (path_pk p)) eqn:E; simpl.
        -- now rewrite Z.eqb_refl.
        -- now rewrite E.
      * unfold PathTracer.delete_path, PathTracer.with_cable_paths. simpl. f_equal.
        now apply filter_filter_imp.
      * reflexivity.
      * reflexivity.
  - intros origin q Ho Hc Hq Hk.
    pose proof (retrace_same_graph is_endpoint p s) as Hg.
    unfold PathTracer.completes in Hc.
    destruct (PathTracer.trace is_endpoint s origin) as [ns ds a| | |] eqn:Et;
      try discriminate.
    assert (q = mkCablePath (path_pk p) ns (origins p) ds a) as ->.
    { unfold PathTracer.retrace in Hq. rewrite Ho, Et in Hq. simpl in Hq.
      apply in_map_iff in Hq as (r & Hr & _).
      destruct (Z.eqb (path_pk r) (path_pk p)) eqn:E; [rewrite Ho; now symmetry|].
      subst r. apply Z.eqb_neq in E. contradiction. }
    apply (agrees_trace is_endpoint _ _ origin); [exact Ho|]. simpl.
    now rewrite (trace_same_graph is_endpoint s _ origin Hg).
Qed.

(** A run of C7's theorem: the path from interface 1 to interface 2 of the
    chain. *)
Lemma retrace_idempotent_witness :
  PathTracer.retrace Examples.endpoint_models Examples.path_1_to_2 Examples.chain =
    Examples.chain.
Proof.
  destruct (retrace_idempotent Examples.endpoint_models Examples.chain
              Examples.path_1_to_2) as (Hfix & _).
  apply Hfix.
  - exact chain_unique_path_pks.
  - simpl. now left.
  - exact chain_path_agrees.
Defined.

(** On the looped store a node recurs in the walk from interface 1: it goes
    by cable 1 to front port 5, by cable 2 to front port 6, by cable 3 to
    front port 7, and from there by cable 2 to front port 6 again. *)
Lemma loop_back_recurs :
  PathTracer.node_recurs Examples.endpoint_models Examples.loop_back (Examples.iface 1).
Proof.
  unfold PathTracer.node_recurs.
  apply (PathTracer.recurs_beyond Examples.endpoint_models Examples.loop_back _ _ _
           (mkCable 1 "connected" "connected") [Examples.frontport 5]
           (Examples.frontport 5));
    [reflexivity | now left | reflexivity |].
  apply (PathTracer.recurs_beyond Examples.endpoint_models Examples.loop_back _ _ _
           (mkCable 2 "connected" "connected") [Examples.frontport 6]
           (Examples.frontport 6));
    [reflexivity | now left | reflexivity |].
  apply (PathTracer.recurs_beyond Examples.endpoint_models Examples.loop_back _ _ _
           (mkCable 3 "connected" "connected") [Examples.frontport 7]
           (Examples.frontport 7));
    [reflexivity | now left | reflexivity |].
  apply (PathTracer.recurs_here Examples.endpoint_models Examples.loop_back _ _ _
           (mkCable 2 "connected" "connected") [Examples.frontport 6]
           (Examples.frontport 6));
    [reflexivity | now left | right; now left].
Qed.

(** C8: when a node recurs in the walk from an origin (some way from it
    along connected Links and through pass-through nodes, whichever
    Termination Reference it takes at each Link, comes to a node already on
    it), tracing from that origin raises [CycleError]; [create_cablepath]
    then persists nothing for that origin (the store is untouched by its
    branch) and goes on with the other origins of the same call exactly as
    if the cyclic one were not listed; retracing a stored path from that
    origin writes nothing either, and [rebuild_paths] keeps such a path as it
    is while it rebuilds the others. *)
Theorem cycle_aborts_branch_only (is_endpoint : ContentType -> bool) (s : Store)
        (origin : Node) (before after : list Node) :
  PathTracer.object_exists s origin = true ->
  PathTracer.node_recurs is_endpoint s origin ->
  PathTracer.trace is_endpoint s origin = PathTracer.CycleError /\
  PathTracer.create_path is_endpoint s origin = s /\
  PathTracer.create_cablepath is_endpoint (before ++ origin :: after) s =
    PathTracer.create_cablepath is_endpoint (before ++ after) s /\
  (forall p rest, origins p = origin :: rest ->
                  PathTracer.retrace is_endpoint p s = s /\
                  PathTracer.rebuilt is_endpoint s p = [p]).
Proof.
  intros Hex Hrec.
  pose proof (recurring_walk_raises is_endpoint s origin Hex Hrec) as Hc.
  split; [exact Hc|]. split; [|split].
  - unfold PathTracer.create_path. now rewrite Hc.
  - rewrite !create_cablepath_app. unfold PathTracer.create_cablepath at 1. simpl.
    unfold PathTracer.create_path at 2.
    rewrite (trace_same_graph is_endpoint s _ origin
               (create_cablepath_same_graph is_endpoint before s)), Hc.
    reflexivity.
  - intros p rest Ho. unfold PathTracer.retrace, PathTracer.rebuilt.
    now rewrite Ho, Hc.
Qed.

(** A run of C8's theorem on the looped store, which is well formed: the
    walk from interface 1 is aborted, the path from interface 2 is still
    created. *)
Lemma cycle_aborts_branch_only_witness :
  PathTracer.well_formed Examples.endpoint_models Examples.loop_back /\
  PathTracer.trace Examples.endpoint_models Examples.loop_back (Examples.iface 1) =
    PathTracer.CycleError /\
  cable_paths (PathTracer.create_cablepath Examples.endpoint_models
                 [Examples.iface 1; Examples.iface 2] Examples.loop_back) =
    [mkCablePath 1 [mkNode cable_content_type 4] [Examples.iface 2]
                 [Examples.iface 3] true].
Proof.
  split; [reflexivity|].
  destruct (cycle_aborts_branch_only Examples.endpoint_models Examples.loop_back
              (Examples.iface 1) [] [Examples.iface 2]) as (Hc & _ & Hrest & _).
  - reflexivity.
  - exact loop_back_recurs.
  - split; [exact Hc|]. simpl app in Hrest. rewrite Hrest. reflexivity.
Defined.



(** ** The location, rack and virtual chassis receivers *)

Lemma in_descendants_set_site (instance : Location.t) (include_self : bool)
      (v : Z) (l : Location.t) :
  in_descendants instance include_self (Location.set_site v l) =
  in_descendants instance include_self l.
Proof. reflexivity. Qed.

Lemma filter_map_stable {A B} (p : A -> bool) (f : A -> A) (g : A -> B)
      (l : list A) :
  (forall x, p (f x) = p x) -> (forall x, g (f x) = g x) ->
  map g (filter p (map f l)) = map g (filter p l).
Proof.
  intros Hp Hg. induction l as [|x l IH]; [reflexivity|].
  simpl. rewrite Hp. destruct (p x); simpl; [rewrite Hg|]; now rewrite IH.
Qed.

(** The location updates do not move any location in or out of a subtree. *)
Lemma subtree_pks_after_resite (instance self : Location.t) (v : Z)
      (ls : list Location.t) (rs : list Rack.t) (ds : list Device.t)
      (ps : list PowerPanel.t) :
  subtree_pks self
    (mkInventory
       (map (fun l => if in_descendants instance false l
                      then Location.set_site v l else l) ls) rs ds ps) =
  subtree_pks self (mkInventory ls rs ds ps).
Proof.
  unfold subtree_pks, get_descendants. simpl. apply filter_map_stable.
  - intros l. now destruct (in_descendants instance false l).
  - intros l. now destruct (in_descendants instance false l).
Qed.

(** What [handle_location_site_change] amounts to for a location that was
    not just created: one pass over each table, on the subtree as it is
    stored when the receiver starts. *)
Lemma location_change_unfolded (instance : Location.t) (s : Inventory) :
  handle_location_site_change instance false s =
  mkInventory
    (map (fun l => if in_descendants instance false l
                   then Location.set_site (Location.site instance) l else l)
         (locations s))
    (map (fun r => if location_in (subtree_pks instance s) (Rack.location r)
                   then Rack.set_site (Location.site instance) r else r)
         (racks s))
    (map (fun d => if location_in (subtree_pks instance s) (Device.location d)
                   then Device.set_site (Location.site instance) d else d)
         (devices s))
    (map (fun p => if location_in (subtree_pks instance s) (PowerPanel.location p)
                   then PowerPanel.set_site (Location.site instance) p else p)
         (power_panels s)).
Proof.
  unfold handle_location_site_change. simpl.
  change (map Location.pk
            (get_descendants instance true
               (mkInventory
                  (map (fun l => if in_descendants instance false l
                                 then Location.set_site (Location.site instance) l
                                 else l) (locations s))
                  (racks s) (devices s) (power_panels s))))
    with (subtree_pks instance
            (mkInventory
               (map (fun l => if in_descendants instance false l
                              then Location.set_site (Location.site instance) l
                              else l) (locations s))
               (racks s) (devices s) (power_panels s))).
  rewrite subtree_pks_after_resite.
  now destruct s.
Qed.

Lemma Forall_map_if {A} (p : A -> bool) (f : A -> A) (Q : A -> Prop) (l : list A) :
  (forall x, p x = true -> Q (f x)) -> (forall x, p x = false -> Q x) ->
  Forall Q (map (fun x => if p x then f x else x) l).
Proof.
  intros Ht Hf. induction l as [|x l IH]; simpl; constructor; auto.
  destruct (p x) eqn:E; auto.
Qed.

Lemma Forall2_map_if {A} (p : A -> bool) (f : A -> A) (R : A -> A -> Prop)
      (l : list A) :
  (forall x, p x = true -> R x (f x)) -> (forall x, p x = false -> R x x) ->
  Forall2 R l (map (fun x => if p x then f x else x) l).
Proof.
  intros Ht Hf. induction l as [|x l IH]; simpl; constructor; auto.
  destruct (p x) eqn:E; auto.
Qed.

Lemma Forall2_same {A} (R : A -> A -> Prop) (l : list A) :
  (forall x, R x x) -> Forall2 R l l.
Proof. intros H. induction l; constructor; auto. Qed.

Lemma map_if_idempotent {A} (p : A -> bool) (f : A -> A) (l : list A) :
  (forall x, p (f x) = p x) -> (forall x, f (f x) = f x) ->
  map (fun x => if p x then f x else x) (map (fun x => if p x then f x else x) l) =
  map (fun x => if p x then f x else x) l.
Proof.
  intros Hp Hf. rewrite map_map. apply map_ext. intros x.
  destruct (p x) eqn:E; [rewrite Hp, E; apply Hf | now rewrite E].
Qed.

(** X1: after the save of an existing location, every rack, device and power
    panel whose location is the saved one or one of its descendants has the
    site of the saved location, and so has every descendant location. *)
Theorem location_site_reaches_subtree (instance : Location.t) (s : Inventory) :
  let s' := handle_location_site_change instance false s in
  Forall (fun l => in_descendants instance false l = true ->
                   Location.site l = Location.site instance) (locations s') /\
  Forall (fun r => location_in (subtree_pks instance s) (Rack.location r) = true ->
                   Rack.site r = Location.site instance) (racks s') /\
  Forall (fun d => location_in (subtree_pks instance s) (Device.location d) = true ->
                   Device.site d = Location.site instance) (devices s') /\
  Forall (fun p => location_in (subtree_pks instance s) (PowerPanel.location p) = true ->
                   PowerPanel.site p = Location.site instance) (power_panels s') /\
  subtree_pks instance s' = subtree_pks instance s.
Proof.
  cbv zeta. rewrite location_change_unfolded. simpl.
  split; [|split; [|split; [|split]]].
  - apply Forall_map_if; [reflexivity | intros l E; congruence].
  - apply Forall_map_if; [reflexivity | intros r E; simpl; congruence].
  - apply Forall_map_if; [reflexivity | intros r E; simpl; congruence].
  - apply Forall_map_if; [reflexivity | intros r E; simpl; congruence].
  - apply subtree_pks_after_resite.
Qed.

(** X2: [handle_location_site_change] writes nothing but [site], and only
    inside the subtree: every row keeps its key, location and tree fields, a
    rack, device or power panel located outside the subtree (or nowhere) and
    a location that is not a descendant are left exactly as they were, the
    stored row of the saved location itself included; for a location that
    was just created nothing is written at all. *)
Theorem location_change_writes_site_only (instance : Location.t) (created : bool)
        (s : Inventory) :
  let s' := handle_location_site_change instance created s in
  Forall2 (fun l l' =>
             Location.set_site (Location.site l) l' = l /\
             (in_descendants instance false l = false -> l' = l) /\
             (Location.lft l = Location.lft instance -> l' = l))
          (locations s) (locations s') /\
  Forall2 (fun r r' =>
             Rack.set_site (Rack.site r) r' = r /\
             (location_in (subtree_pks instance s) (Rack.location r) = false -> r' = r))
          (racks s) (racks s') /\
  Forall2 (fun d d' =>
             Device.set_site (Device.site d) d' = d /\
             (location_in (subtree_pks instance s) (Device.location d) = false -> d' = d))
          (devices s) (devices s') /\
  Forall2 (fun p p' =>
             PowerPanel.set_site (PowerPanel.site p) p' = p /\
             (location_in (subtree_pks instance s) (PowerPanel.location p) = false ->
              p' = p))
          (power_panels s) (power_panels s') /\
  (created = true -> s' = s).
Proof.
  cbv zeta. destruct created.
  - simpl. split; [|split; [|split; [|split]]]; try reflexivity;
      apply Forall2_same; intros x; (split; [now destruct x | auto]).
  - rewrite location_change_unfolded. simpl.
    split; [|split; [|split; [|split]]]; try discriminate.
    + apply Forall2_map_if.
      * intros l E. split; [now destruct l|]. split; [congruence|].
        intros Hl. exfalso. unfold in_descendants in E.
        destruct (is_leaf_node instance); [discriminate|].
        apply andb_true_iff in E as (E & _). apply andb_true_iff in E as (_ & E).
        apply Z.leb_le in E. lia.
      * intros l E. split; [now destruct l|]. auto.
    + apply Forall2_map_if; intros r E; (split; [now destruct r | congruence]).
    + apply Forall2_map_if; intros r E; (split; [now destruct r | congruence]).
    + apply Forall2_map_if; intros r E; (split; [now destruct r | congruence]).
Qed.

(** X3: [handle_location_site_change] is idempotent: handling the same save
    a second time changes nothing more. *)
Theorem location_change_idempotent (instance : Location.t) (created : bool)
        (s : Inventory) :
  handle_location_site_change instance created
    (handle_location_site_change instance created s) =
  handle_location_site_change instance created s.
Proof.
  destruct created; [reflexivity|].
  rewrite (location_change_unfolded instance
             (handle_location_site_change instance false s)).
  assert (subtree_pks instance (handle_location_site_change instance false s)
          = subtree_pks instance s) as Hpks.
  { rewrite location_change_unfolded. apply subtree_pks_after_resite. }
  rewrite Hpks. rewrite location_change_unfolded. simpl. f_equal.
  - now apply map_if_idempotent.
  - now apply map_if_idempotent.
  - now apply map_if_idempotent.
  - now apply map_if_idempotent.
Qed.

(** X4: [handle_location_site_change] keeps devices in step with their
    racks: if every device mounted in a rack has the site and location of
    that rack, this still holds after the receiver has run. *)
Theorem location_change_keeps_devices_with_racks (instance : Location.t)
        (created : bool) (s : Inventory) :
  devices_follow_racks s ->
  devices_follow_racks (handle_location_site_change instance created s).
Proof.
  intros Hinv. destruct created; [exact Hinv|].
  rewrite location_change_unfolded. intros d' r' Hd Hr. simpl in Hd, Hr.
  apply in_map_iff in Hd as (d & <- & Hd). apply in_map_iff in Hr as (r & <- & Hr).
  intros Hrack.
  assert (Device.rack d = Some (Rack.pk r)) as Hrack0.
  { destruct (location_in _ (Device.location d)), (location_in _ (Rack.location r));
      exact Hrack. }
  destruct (Hinv d r Hd Hr Hrack0) as (Hs & Hl). rewrite Hl.
  destruct (location_in (subtree_pks instance s) (Rack.location r)); simpl; auto.
Qed.

(** A run of X4's theorem: location 1 moves to site 99. *)
Lemma location_change_keeps_devices_with_racks_witness :
  devices_follow_racks
    (handle_location_site_change (Location.mk 1 99 1 1 4) false
                                 InventoryExamples.site_a).
Proof.
  apply (location_change_keeps_devices_with_racks (Location.mk 1 99 1 1 4) false
           InventoryExamples.site_a).
  intros d r Hd Hr. simpl in Hd, Hr.
  destruct Hd as [<-|[<-|[<-|[]]]], Hr as [<-|[<-|[]]]; simpl; intros H;
    try discriminate H; split; reflexivity.
Defined.

Lemma leaf_subtree_pks (instance : Location.t) (s : Inventory) (k : Z) :
  is_leaf_node instance = true ->
  In k (subtree_pks instance s) ->
  k = Location.pk instance.
Proof.
  unfold subtree_pks, get_descendants, in_descendants. intros -> Hin.
  apply in_map_iff in Hin as (l & <- & Hl). apply filter_In in Hl as (_ & Hl).
  now apply Z.eqb_eq.
Qed.

Lemma location_in_In (pks : list Z) (o : option Z) :
  location_in pks o = true <-> exists k, o = Some k /\ In k pks.
Proof.
  destruct o as [k|]; simpl.
  - rewrite existsb_exists. split.
    + intros (x & Hx & E). apply Z.eqb_eq in E. subst. now exists x.
    + intros (x & E & Hx). inversion E; subst. exists x. split; [assumption|].
      apply Z.eqb_refl.
  - split; [discriminate | intros (k & E & _); discriminate].
Qed.

(** X5: for a location without descendants, [handle_location_site_change]
    leaves the locations table alone and gives the site of the location to
    the racks, devices and power panels that sit directly in it, and to no
    other; if the location is not stored, nothing is written. *)
Theorem leaf_location_resites_own_objects (instance : Location.t) (s : Inventory) :
  is_leaf_node instance = true ->
  let s' := handle_location_site_change instance false s in
  locations s' = locations s /\
  ((exists l, In l (locations s) /\ Location.pk l = Location.pk instance) ->
   Forall2 (fun r r' =>
              (Rack.location r = Some (Location.pk instance) ->
               r' = Rack.set_site (Location.site instance) r) /\
              (Rack.location r <> Some (Location.pk instance) -> r' = r))
           (racks s) (racks s') /\
   Forall2 (fun d d' =>
              (Device.location d = Some (Location.pk instance) ->
               d' = Device.set_site (Location.site instance) d) /\
              (Device.location d <> Some (Location.pk instance) -> d' = d))
           (devices s) (devices s') /\
   Forall2 (fun p p' =>
              (PowerPanel.location p = Some (Location.pk instance) ->
               p' = PowerPanel.set_site (Location.site instance) p) /\
              (PowerPanel.location p <> Some (Location.pk instance) -> p' = p))
           (power_panels s) (power_panels s')) /\
  ((forall l, In l (locations s) -> Location.pk l <> Location.pk instance) ->
   s' = s).
Proof.
  intros Hleaf. cbv zeta. rewrite location_change_unfolded. simpl.
  assert (forall o, location_in (subtree_pks instance s) o = true ->
                    o = Some (Location.pk instance)) as Hin.
  { intros o H. apply location_in_In in H as (k & -> & Hk).
    now rewrite (leaf_subtree_pks instance s k Hleaf Hk). }
  assert (map (fun l => if in_descendants instance false l
                        then Location.set_site (Location.site instance) l else l)
              (locations s) = locations s) as Hlocs.
  { transitivity (map (fun l : Location.t => l) (locations s)); [|apply map_id].
    apply map_ext. intros l. unfold in_descendants. now rewrite Hleaf. }
  split; [exact Hlocs|]. split.
  - intros (l & Hl & Hpk).
    assert (location_in (subtree_pks instance s) (Some (Location.pk instance)) = true)
      as Hself.
    { apply location_in_In. exists (Location.pk instance). split; [reflexivity|].
      unfold subtree_pks, get_descendants. rewrite <- Hpk. apply in_map.
      apply filter_In. split; [assumption|]. unfold in_descendants.
      rewrite Hleaf. now apply Z.eqb_eq. }
    split; [|split]; apply Forall2_map_if; intros x E; split;
      try (intros Hx; rewrite Hx in E; congruence);
      try reflexivity;
      try (intros Hx; exfalso; apply Hx; now apply Hin).
  - intros Hnone.
    assert (subtree_pks instance s = []) as Hempty.
    { unfold subtree_pks, get_descendants.
      destruct (filter (in_descendants instance true) (locations s)) as [|l ls] eqn:E;
        [reflexivity|].
      assert (In l (filter (in_descendants instance true) (locations s))) as Hl
          by (rewrite E; now left).
      apply filter_In in Hl as (Hl & Hp). unfold in_descendants in Hp.
      rewrite Hleaf in Hp. apply Z.eqb_eq in Hp. now apply Hnone in Hl. }
    rewrite Hlocs, Hempty. destruct s as [ls rs ds ps]. simpl. f_equal.
    + transitivity (map (fun r : Rack.t => r) rs); [|apply map_id].
      apply map_ext. intros r. now destruct (Rack.location r).
    + transitivity (map (fun r : Device.t => r) ds); [|apply map_id].
      apply map_ext. intros r. now destruct (Device.location r).
    + transitivity (map (fun r : PowerPanel.t => r) ps); [|apply map_id].
      apply map_ext. intros r. now destruct (PowerPanel.location r).
Qed.

(** A run of X5's theorem: location 2 of the example, which has no
    descendant, moves to site 77. *)
Lemma leaf_location_resites_own_objects_witness :
  locations (handle_location_site_change (Location.mk 2 77 1 2 3) false
                                         InventoryExamples.site_a) =
  locations InventoryExamples.site_a.
Proof.
  apply (leaf_location_resites_own_objects (Location.mk 2 77 1 2 3)
           InventoryExamples.site_a).
  reflexivity.
Defined.

(** X6: after the save of an existing rack, every device mounted in it has
    the site and the location of the rack; a device in another rack or in no
    rack is left as it was, no device changes key, rack or virtual chassis
    fields, and the other tables are untouched.  For a rack that was just
    created nothing is written. *)
Theorem rack_change_moves_its_devices (instance : Rack.t) (created : bool)
        (s : Inventory) :
  let s' := handle_rack_site_change instance created s in
  locations s' = locations s /\ racks s' = racks s /\
  power_panels s' = power_panels s /\
  Forall2 (fun d d' =>
             Device.set_site_location (Device.site d) (Device.location d) d' = d /\
             (created = false -> rack_is instance d = true ->
              Device.site d' = Rack.site instance /\
              Device.location d' = Rack.location instance) /\
             (rack_is instance d = false -> d' = d))
          (devices s) (devices s') /\
  (created = true -> s' = s).
Proof.
  cbv zeta. destruct created; simpl.
  - repeat (split; [reflexivity|]). split; [|reflexivity].
    apply Forall2_same. intros d. split; [now destruct d|]. split; [discriminate|auto].
  - repeat (split; [reflexivity|]). split; [|discriminate].
    apply Forall2_map_if; intros d E; (split; [now destruct d|]); split; auto;
      congruence.
Qed.

Lemma rack_is_set (instance : Rack.t) (v : Z) (l : option Z) (d : Device.t) :
  rack_is instance (Device.set_site_location v l d) = rack_is instance d.
Proof. reflexivity. Qed.

(** X7: [handle_rack_site_change] is idempotent, and the receivers of two
    racks with different keys commute: the devices of one rack are never
    touched on behalf of the other. *)
Theorem rack_change_idempotent_and_commutes (r1 r2 : Rack.t) (created : bool)
        (s : Inventory) :
  handle_rack_site_change r1 created (handle_rack_site_change r1 created s) =
    handle_rack_site_change r1 created s /\
  (Rack.pk r1 <> Rack.pk r2 ->
   handle_rack_site_change r1 false (handle_rack_site_change r2 false s) =
   handle_rack_site_change r2 false (handle_rack_site_change r1 false s)).
Proof.
  split.
  - destruct created; [reflexivity|]. unfold handle_rack_site_change. simpl.
    f_equal. now apply map_if_idempotent.
  - intros Hne. unfold handle_rack_site_change. simpl. f_equal.
    rewrite !map_map. apply map_ext. intros d.
    destruct (rack_is r1 d) eqn:E1, (rack_is r2 d) eqn:E2;
      rewrite ?rack_is_set, ?E1, ?E2; try reflexivity.
    exfalso. unfold rack_is in E1, E2. destruct (Device.rack d); [|discriminate].
    apply Z.eqb_eq in E1, E2. congruence.
Qed.

(** A run of X7's theorem on racks 1 and 2 of the example. *)
Lemma rack_change_idempotent_and_commutes_witness :
  handle_rack_site_change (Rack.mk 1 50 None) false
    (handle_rack_site_change (Rack.mk 2 60 (Some 1)) false InventoryExamples.site_a) =
  handle_rack_site_change (Rack.mk 2 60 (Some 1)) false
    (handle_rack_site_change (Rack.mk 1 50 None) false InventoryExamples.site_a).
Proof.
  apply (rack_change_idempotent_and_commutes (Rack.mk 1 50 None)
           (Rack.mk 2 60 (Some 1)) false InventoryExamples.site_a).
  discriminate.
Defined.

(** X8: [handle_rack_site_change] brings the devices back in step: if the
    saved rack is stored as it was saved and the devices of every other rack
    already follow their rack, then after the receiver every device follows
    its rack. *)
Theorem rack_change_restores_devices_with_racks (instance : Rack.t) (s : Inventory) :
  (forall r, In r (racks s) -> Rack.pk r = Rack.pk instance -> r = instance) ->
  (forall d r, In d (devices s) -> In r (racks s) ->
               Device.rack d = Some (Rack.pk r) -> Rack.pk r <> Rack.pk instance ->
               Device.site d = Rack.site r /\ Device.location d = Rack.location r) ->
  devices_follow_racks (handle_rack_site_change instance false s).
Proof.
  intros Hrow Hothers d' r Hd Hr Hrack. simpl in Hd, Hr.
  apply in_map_iff in Hd as (d & <- & Hd).
  destruct (rack_is instance d) eqn:E.
  - simpl in Hrack |- *. unfold rack_is in E. rewrite Hrack in E.
    apply Z.eqb_eq in E. now rewrite (Hrow r Hr E).
  - apply (Hothers d r Hd Hr Hrack). intros Hpk.
    unfold rack_is in E. rewrite Hrack, Hpk, Z.eqb_refl in E. discriminate.
Qed.

(** A run of X8's theorem: rack 1 of the example has been saved with site 50
    and no location. *)
Lemma rack_change_restores_devices_with_racks_witness :
  devices_follow_racks
    (handle_rack_site_change (Rack.mk 1 50 None) false
       (mkInventory (locations InventoryExamples.site_a)
                    [Rack.mk 1 50 None; InventoryExamples.rack_b]
                    (devices InventoryExamples.site_a)
                    (power_panels InventoryExamples.site_a))).
Proof.
  apply (rack_change_restores_devices_with_racks (Rack.mk 1 50 None)).
  - intros r Hr. simpl in Hr. destruct Hr as [<-|[<-|[]]]; simpl; intros H;
      [reflexivity | discriminate H].
  - intros d r Hd Hr. simpl in Hd, Hr.
    destruct Hd as [<-|[<-|[<-|[]]]], Hr as [<-|[<-|[]]]; simpl; intros H Hne;
      try discriminate H; try (now contradiction Hne); split; reflexivity.
Defined.

(** *** Virtual chassis *)

Lemma filter_nothing {A} (p : A -> bool) (l : list A) :
  (forall x, In x l -> p x = false) -> filter p l = [].
Proof.
  induction l as [|x l IH]; intros H; [reflexivity|].
  simpl. rewrite (H x (or_introl eq_refl)). apply IH. intros y Hy. apply H. now right.
Qed.

Lemma filter_device_pk_unique (ds : list Device.t) (d : Device.t) :
  NoDup (map Device.pk ds) -> In d ds ->
  filter (fun r => Z.eqb (Device.pk r) (Device.pk d)) ds = [d].
Proof.
  induction ds as [|x ds IH]; intros Hnd Hin; [destruct Hin|].
  simpl in Hnd. apply NoDup_cons_iff in Hnd as (Hx & Hnd). simpl.
  destruct Hin as [->|Hin].
  - rewrite Z.eqb_refl. f_equal. apply filter_nothing. intros y Hy.
    apply Z.eqb_neq. intros E. apply Hx. rewrite <- E. now apply in_map.
  - destruct (Z.eqb (Device.pk x) (Device.pk d)) eqn:E; [|now apply IH].
    apply Z.eqb_eq in E. exfalso. apply Hx. rewrite E. now apply in_map.
Qed.

Lemma save_device_stored (d : Device.t) (s : Inventory) :
  (exists r, In r (devices s) /\ Device.pk r = Device.pk d) ->
  devices (save_device d s) =
  map (fun r => if Z.eqb (Device.pk r) (Device.pk d) then d else r) (devices s).
Proof.
  intros (r & Hr & E). unfold save_device. simpl.
  assert (existsb (fun r => Z.eqb (Device.pk r) (Device.pk d)) (devices s) = true) as ->.
  { apply existsb_exists. exists r. split; [assumption|]. now apply Z.eqb_eq. }
  reflexivity.
Qed.

Lemma unique_device_row (ds : list Device.t) (a b : Device.t) :
  NoDup (map Device.pk ds) -> In a ds -> In b ds -> Device.pk a = Device.pk b -> a = b.
Proof.
  induction ds as [|x ds IH]; intros Hnd Ha Hb E; [destruct Ha|].
  simpl in Hnd. apply NoDup_cons_iff in Hnd as (Hx & Hnd).
  destruct Ha as [->|Ha], Hb as [->|Hb]; auto.
  - exfalso. apply Hx. rewrite E. now apply in_map.
  - exfalso. apply Hx. rewrite <- E. now apply in_map.
Qed.

Lemma Forall2_map_in {A} (f : A -> A) (R : A -> A -> Prop) (l : list A) :
  (forall x, In x l -> R x (f x)) -> Forall2 R l (map f l).
Proof.
  induction l as [|x l IH]; intros H; simpl; constructor.
  - apply H. now left.
  - apply IH. intros y Hy. apply H. now right.
Qed.

(** X9: when a virtual chassis is created with a master that is stored
    (under unique device keys), [assign_virtualchassis_master] makes that
    device a member at position 1 and changes nothing else: its other fields,
    [vc_priority] included, every other device and the other tables are as
    before. *)
Theorem assign_master_joins_at_position_1 (instance : VirtualChassis.t)
        (master : Device.t) (s : Inventory) :
  unique_device_pks s ->
  In master (devices s) ->
  VirtualChassis.master instance = Some (Device.pk master) ->
  exists s',
    assign_virtualchassis_master instance true s = Done s' /\
    locations s' = locations s /\ racks s' = racks s /\
    power_panels s' = power_panels s /\
    Forall2 (fun d d' =>
               if Z.eqb (Device.pk d) (Device.pk master)
               then d' = Device.mk (Device.pk d) (Device.site d) (Device.location d)
                                   (Device.rack d) (Some (VirtualChassis.pk instance))
                                   (Some 1) (Device.vc_priority d)
               else d' = d)
            (devices s) (devices s').
Proof.
  intros Hu Hin Hm. unfold assign_virtualchassis_master. rewrite Hm.
  unfold get_device. rewrite (filter_device_pk_unique _ _ Hu Hin).
  eexists. split; [reflexivity|]. repeat (split; [reflexivity|]).
  rewrite save_device_stored by (exists master; split; [assumption | reflexivity]).
  simpl. apply Forall2_map_in. intros d Hd.
  destruct (Z.eqb (Device.pk d) (Device.pk master)) eqn:E; [|reflexivity].
  apply Z.eqb_eq in E. now rewrite (unique_device_row _ d master Hu Hd Hin E).
Qed.

(** A run of X9's theorem: chassis 7 is created with device 3 as master. *)
Lemma assign_master_joins_at_position_1_witness :
  exists s',
    assign_virtualchassis_master InventoryExamples.chassis true
                                 InventoryExamples.site_a = Done s' /\
    nth_error (devices s') 2 =
      Some (Device.mk 3 30 (Some 3) None (Some 7) (Some 1) (Some 100)).
Proof.
  destruct (assign_master_joins_at_position_1 InventoryExamples.chassis
              (InventoryExamples.dev 3 30 (Some 3) None None)
              InventoryExamples.site_a) as (s' & Hrun & _).
  - unfold unique_device_pks. simpl.
    repeat constructor; simpl; intuition discriminate.
  - simpl. right. right. now left.
  - reflexivity.
  - exists s'. split; [exact Hrun|].
    vm_compute in Hrun. inversion Hrun. reflexivity.
Defined.

(** X10: [assign_virtualchassis_master] does nothing for a chassis that was
    not just created or has no master; when the master cannot be fetched it
    fails without writing anything, with [DoesNotExist] if no device has the
    key, and under unique device keys that is the only failure. *)
Theorem assign_master_guards_and_failures (instance : VirtualChassis.t)
        (created : bool) (s : Inventory) :
  (created = false \/ VirtualChassis.master instance = None ->
   assign_virtualchassis_master instance created s = Done s) /\
  (forall k, VirtualChassis.master instance = Some k ->
             (forall d, In d (devices s) -> Device.pk d <> k) ->
             assign_virtualchassis_master instance true s = Failed DoesNotExist s) /\
  (forall e s', assign_virtualchassis_master instance created s = Failed e s' ->
                s' = s /\
                (unique_device_pks s ->
                 e = DoesNotExist /\
                 exists k, VirtualChassis.master instance = Some k /\
                           forall d, In d (devices s) -> Device.pk d <> k)).
Proof.
  unfold assign_virtualchassis_master, get_device. split; [|split].
  - intros [->| ->]; [reflexivity|]. now destruct created.
  - intros k -> Hnone. rewrite filter_nothing; [reflexivity|].
    intros d Hd. apply Z.eqb_neq. now apply Hnone.
  - intros e s'. destruct created; [|discriminate].
    destruct (VirtualChassis.master instance) as [k|]; [|discriminate].
    destruct (filter (fun d => Z.eqb (Device.pk d) k) (devices s))
      as [|a [|b rest]] eqn:Ef; intros H; [|discriminate H|];
      injection H as He Hs; rewrite <- He, <- Hs; (split; [reflexivity|]).
    + intros _. split; [reflexivity|]. exists k. split; [reflexivity|].
      intros d Hd E.
      assert (In d (filter (fun d => Z.eqb (Device.pk d) k) (devices s))) as Hin.
      { apply filter_In. split; [assumption|]. now apply Z.eqb_eq. }
      rewrite Ef in Hin. destruct Hin.
    + intros Hu. exfalso.
      assert (In a (filter (fun d => Z.eqb (Device.pk d) k) (devices s))) as Ha
          by (rewrite Ef; now left).
      assert (In b (filter (fun d => Z.eqb (Device.pk d) k) (devices s))) as Hb
          by (rewrite Ef; right; now left).
      apply filter_In in Ha as (Ha & Ea). apply filter_In in Hb as (Hb & Eb).
      apply Z.eqb_eq in Ea, Eb.
      pose proof (filter_device_pk_unique _ a Hu Ha) as Hf.
      rewrite Ea in Hf. rewrite Hf in Ef. discriminate Ef.
Qed.

(** A run of X10's theorem: no device has key 9. *)
Lemma assign_master_guards_and_failures_witness :
  assign_virtualchassis_master (VirtualChassis.mk 7 (Some 9)) true
                               InventoryExamples.site_a =
  Failed DoesNotExist InventoryExamples.site_a.
Proof.
  destruct (assign_master_guards_and_failures (VirtualChassis.mk 7 (Some 9)) true
              InventoryExamples.site_a) as (_ & Hmissing & _).
  apply (Hmissing 9); [reflexivity|].
  intros d Hd. simpl in Hd. destruct Hd as [<-|[<-|[<-|[]]]]; discriminate.
Defined.

Lemma selection_keeps_unique_pks (keep : Device.t -> bool) (ds : list Device.t) :
  NoDup (map Device.pk ds) -> NoDup (map Device.pk (filter keep ds)).
Proof.
  intros Hu. induction ds as [|d ds IH]; [constructor|].
  simpl in Hu. apply NoDup_cons_iff in Hu as (Hd & Hu). simpl.
  destruct (keep d); [|now apply IH]. simpl. constructor; [|now apply IH].
  intros Hin. apply Hd. apply in_map_iff in Hin as (y & E & Hy).
  apply filter_In in Hy as (Hy & _). rewrite <- E. now apply in_map.
Qed.

(** Saving the cleared members one after the other is one pass over the
    devices table. *)
Lemma clear_members_fold (ms : list Device.t) :
  forall s,
    NoDup (map Device.pk (devices s)) -> NoDup (map Device.pk ms) ->
    (forall m, In m ms -> In m (devices s)) ->
    fold_left (fun s' device => save_device (clear_vc_fields device) s') ms s =
    mkInventory (locations s) (racks s)
      (map (fun d => if existsb (fun m => Z.eqb (Device.pk m) (Device.pk d)) ms
                     then clear_vc_fields d else d) (devices s))
      (power_panels s).
Proof.
  induction ms as [|m ms IH]; intros s Hu Hms Hin.
  - simpl. destruct s as [ls rs ds ps]. simpl. f_equal. symmetry. apply map_id.
  - simpl in Hms. apply NoDup_cons_iff in Hms as (Hm & Hms).
    assert (In m (devices s)) as Hmin by (apply Hin; now left).
    assert (devices (save_device (clear_vc_fields m) s) =
            map (fun r => if Z.eqb (Device.pk r) (Device.pk m)
                          then clear_vc_fields r else r) (devices s)) as Hsave.
    { rewrite save_device_stored by (exists m; split; [assumption | reflexivity]).
      apply map_ext_in. intros r Hr. simpl.
      destruct (Z.eqb (Device.pk r) (Device.pk m)) eqn:E; [|reflexivity].
      apply Z.eqb_eq in E. now rewrite (unique_device_row _ r m Hu Hr Hmin E). }
    simpl fold_left. rewrite IH.
    + rewrite Hsave. simpl. f_equal. rewrite map_map. apply map_ext. intros d.
      rewrite (Z.eqb_sym (Device.pk m) (Device.pk d)).
      destruct (Z.eqb (Device.pk d) (Device.pk m)); simpl; [|reflexivity].
      now destruct (existsb _ ms).
    + rewrite Hsave, map_map.
      erewrite map_ext; [exact Hu|]. intros r. simpl.
      now destruct (Z.eqb (Device.pk r) (Device.pk m)).
    + exact Hms.
    + intros m' Hm'. rewrite Hsave.
      assert (Z.eqb (Device.pk m') (Device.pk m) = false) as E.
      { apply Z.eqb_neq. intros E. apply Hm. rewrite <- E. now apply in_map. }
      apply in_map_iff. exists m'. rewrite E. split; [reflexivity|].
      apply Hin. now right.
Qed.

Lemma clear_members_as_map (instance : VirtualChassis.t) (s : Inventory) :
  unique_device_pks s ->
  clear_virtualchassis_members instance s =
  mkInventory (locations s) (racks s)
    (map (fun d => if member_of instance d then clear_vc_fields d else d) (devices s))
    (power_panels s).
Proof.
  intros Hu. unfold clear_virtualchassis_members.
  rewrite clear_members_fold.
  - f_equal. apply map_ext_in. intros d Hd.
    destruct (member_of instance d) eqn:E.
    + assert (existsb (fun m => Z.eqb (Device.pk m) (Device.pk d))
                      (filter (member_of instance) (devices s)) = true) as ->;
        [|reflexivity].
      apply existsb_exists. exists d. split; [|apply Z.eqb_refl].
      apply filter_In. now split.
    + assert (existsb (fun m => Z.eqb (Device.pk m) (Device.pk d))
                      (filter (member_of instance) (devices s)) = false) as ->;
        [|reflexivity].
      apply not_true_is_false. intros H. apply existsb_exists in H as (m & Hm & Em).
      apply filter_In in Hm as (Hm & Hmem). apply Z.eqb_eq in Em.
      rewrite (unique_device_row _ m d Hu Hm Hd Em) in Hmem. congruence.
  - exact Hu.
  - now apply selection_keeps_unique_pks.
  - intros m Hm. now apply filter_In in Hm as (Hm & _).
Qed.

(** X11: under unique device keys, [clear_virtualchassis_members], which
    saves the members one by one, comes to a single pass over the devices:
    every member of the chassis has [vc_position] and [vc_priority] set to
    [None], every other field of it, every other device and the other tables
    are unchanged. *)
Theorem clear_members_is_one_pass (instance : VirtualChassis.t) (s : Inventory) :
  unique_device_pks s ->
  clear_virtualchassis_members instance s =
  mkInventory (locations s) (racks s)
    (map (fun d => if member_of instance d
                   then Device.mk (Device.pk d) (Device.site d) (Device.location d)
                                  (Device.rack d) (Device.virtual_chassis d) None None
                   else d)
         (devices s))
    (power_panels s).
Proof. apply clear_members_as_map. Qed.

(** A run of X11's theorem on chassis 7 of the example. *)
Lemma clear_members_is_one_pass_witness :
  map Device.vc_position
      (devices (clear_virtualchassis_members InventoryExamples.chassis
                                             InventoryExamples.site_a)) =
  [None; None; Some 2].
Proof.
  rewrite (clear_members_is_one_pass InventoryExamples.chassis
             InventoryExamples.site_a).
  - reflexivity.
  - unfold unique_device_pks. simpl.
    repeat constructor; simpl; intuition discriminate.
Defined.

(** X12: under unique device keys, [clear_virtualchassis_members] is
    idempotent and never touches membership: the devices keep their
    [virtual_chassis], so the chassis has the same members afterwards, none
    of them with a position or priority. *)
Theorem clear_members_idempotent_keeps_membership (instance : VirtualChassis.t)
        (s : Inventory) :
  unique_device_pks s ->
  let s' := clear_virtualchassis_members instance s in
  clear_virtualchassis_members instance s' = s' /\
  map Device.pk (devices s') = map Device.pk (devices s) /\
  map Device.virtual_chassis (devices s') = map Device.virtual_chassis (devices s) /\
  Forall (fun d => member_of instance d = true ->
                   Device.vc_position d = None /\ Device.vc_priority d = None)
         (devices s').
Proof.
  intros Hu. cbv zeta.
  assert (map Device.pk (devices (clear_virtualchassis_members instance s))
          = map Device.pk (devices s)) as Hpk.
  { rewrite clear_members_as_map by assumption. simpl. rewrite map_map.
    apply map_ext. intros d. now destruct (member_of instance d). }
  split; [|split; [exact Hpk|split]].
  - rewrite (clear_members_as_map instance (clear_virtualchassis_members instance s)).
    + rewrite clear_members_as_map by assumption. simpl. f_equal.
      now apply map_if_idempotent.
    + unfold unique_device_pks. now rewrite Hpk.
  - rewrite clear_members_as_map by assumption. simpl. rewrite map_map.
    apply map_ext. intros d. now destruct (member_of instance d).
  - rewrite clear_members_as_map by assumption. simpl.
    apply Forall_map_if; [now split | intros d E; congruence].
Qed.

(** A run of X12's theorem on chassis 7 of the example. *)
Lemma clear_members_idempotent_keeps_membership_witness :
  clear_virtualchassis_members InventoryExamples.chassis
    (clear_virtualchassis_members InventoryExamples.chassis InventoryExamples.site_a) =
  clear_virtualchassis_members InventoryExamples.chassis InventoryExamples.site_a.
Proof.
  apply (clear_members_idempotent_keeps_membership InventoryExamples.chassis
           InventoryExamples.site_a).
  unfold unique_device_pks. simpl.
  repeat constructor; simpl; intuition discriminate.
Defined.

(** X13: a chassis created with a stored master and deleted later (unique
    device keys): [assign_virtualchassis_master] puts the master at position
    1, and [clear_virtualchassis_members] then clears its position and
    priority but leaves it a member of the chassis; its other fields are
    those it had. *)
Theorem assign_then_clear_master (instance : VirtualChassis.t) (master : Device.t)
        (s : Inventory) :
  unique_device_pks s ->
  In master (devices s) ->
  VirtualChassis.master instance = Some (Device.pk master) ->
  exists s1,
    assign_virtualchassis_master instance true s = Done s1 /\
    In (Device.mk (Device.pk master) (Device.site master) (Device.location master)
                  (Device.rack master) (Some (VirtualChassis.pk instance)) (Some 1)
                  (Device.vc_priority master))
       (devices s1) /\
    In (Device.mk (Device.pk master) (Device.site master) (Device.location master)
                  (Device.rack master) (Some (VirtualChassis.pk instance)) None None)
       (devices (clear_virtualchassis_members instance s1)).
Proof.
  intros Hu Hin Hm. unfold assign_virtualchassis_master. rewrite Hm.
  unfold get_device. rewrite (filter_device_pk_unique _ _ Hu Hin).
  eexists. split; [reflexivity|].
  set (joined := set_virtual_chassis (VirtualChassis.pk instance) 1 master).
  assert (devices (save_device joined s) =
          map (fun r => if Z.eqb (Device.pk r) (Device.pk master) then joined else r)
              (devices s)) as Hsave.
  { apply (save_device_stored joined s). exists master. now split. }
  assert (In joined (devices (save_device joined s))) as Hj.
  { rewrite Hsave. apply in_map_iff. exists master. now rewrite Z.eqb_refl. }
  split; [exact Hj|].
  rewrite clear_members_as_map.
  - simpl. apply in_map_iff. exists joined. split; [|exact Hj].
    unfold member_of, joined. simpl. now rewrite Z.eqb_refl.
  - unfold unique_device_pks. rewrite Hsave, map_map.
    erewrite map_ext; [exact Hu|]. intros r. simpl.
    destruct (Z.eqb (Device.pk r) (Device.pk master)) eqn:E; [|reflexivity].
    apply Z.eqb_eq in E. now rewrite E.
Qed.

(** A run of X13's theorem: chassis 7 with device 3 as master. *)
Lemma assign_then_clear_master_witness :
  exists s1,
    assign_virtualchassis_master InventoryExamples.chassis true
                                 InventoryExamples.site_a = Done s1 /\
    In (Device.mk 3 30 (Some 3) None (Some 7) None None)
       (devices (clear_virtualchassis_members InventoryExamples.chassis s1)).
Proof.
  destruct (assign_then_clear_master InventoryExamples.chassis
              (InventoryExamples.dev 3 30 (Some 3) None None)
              InventoryExamples.site_a) as (s1 & Hrun & _ & Hcleared).
  - unfold unique_device_pks. simpl.
    repeat constructor; simpl; intuition discriminate.
  - simpl. right. right. now left.
  - reflexivity.
  - exists s1. split; [exact Hrun | exact Hcleared].
Defined.

(** ** More on the cable receivers *)

Lemma nodes_contains_set_is_active (n : Node) (b : bool) (p : CablePath) :
  nodes_contains n (set_is_active b p) = nodes_contains n p.
Proof. reflexivity. Qed.

Lemma filter_map_if {A} (p : A -> bool) (f : A -> A) (l : list A) :
  (forall x, p (f x) = p x) ->
  filter p (map (fun x => if p x then f x else x) l) = map f (filter p l).
Proof.
  intros Hp. induction l as [|x l IH]; [reflexivity|].
  simpl. destruct (p x) eqn:E.
  - rewrite Hp, E. simpl. now rewrite IH.
  - rewrite E. exact IH.
Qed.

(** X14: the deactivation of [update_connected_endpoints] is idempotent:
    when an existing cable is saved, not raw, with a changed status that is
    not "connected", handling the same save once more leaves the world the
    first handling produced. *)
Theorem deactivation_idempotent (I : Imports) (instance : Cable) (w : World) :
  status instance <> _orig_status instance ->
  status instance <> STATUS_CONNECTED ->
  exists w1,
    update_connected_endpoints I instance false false w = Val tt w1 /\
    update_connected_endpoints I instance false false w1 = Val tt w1.
Proof.
  intros Hchg Hnc. unfold update_connected_endpoints.
  apply String.eqb_neq in Hchg. apply String.eqb_neq in Hnc.
  rewrite Hchg, Hnc. simpl. eexists. split; [reflexivity|].
  unfold write_db. simpl. f_equal. f_equal.
  unfold update_is_active_false. simpl. f_equal.
  now apply map_if_idempotent.
Qed.

(** A run of X14's theorem: cable 2 of the chain goes to "planned". *)
Lemma deactivation_idempotent_witness :
  exists w1,
    update_connected_endpoints Examples.tracer Examples.link2_planned false false
                               (mkWorld Examples.chain []) = Val tt w1 /\
    update_connected_endpoints Examples.tracer Examples.link2_planned false false
                               w1 = Val tt w1.
Proof.
  apply (deactivation_idempotent Examples.tracer Examples.link2_planned
           (mkWorld Examples.chain [])); discriminate.
Defined.

(** X15: a cable that goes out of "connected" and is then deleted: the paths
    [retrace_cable_paths] retraces are exactly the paths the status change
    deactivated, handed over inactive and otherwise as they were. *)
Theorem deactivate_then_delete_retraces_same_paths (I : Imports) (instance : Cable)
        (w : World) :
  status instance <> _orig_status instance ->
  status instance <> STATUS_CONNECTED ->
  exists w1 w2,
    update_connected_endpoints I instance false false w = Val tt w1 /\
    retrace_cable_paths I instance w1 = Val tt w2 /\
    calls w2 =
      calls w ++ map Call_retrace
                     (map (set_is_active false)
                          (cablepaths_containing (cable_node instance) (db w))).
Proof.
  intros Hchg Hnc. unfold update_connected_endpoints.
  apply String.eqb_neq in Hchg. apply String.eqb_neq in Hnc.
  rewrite Hchg, Hnc. simpl. eexists. eexists. split; [reflexivity|].
  unfold retrace_cable_paths, bind, get_db. rewrite for_each_retrace_runs.
  split; [reflexivity|]. simpl. f_equal. f_equal.
  unfold cablepaths_containing, update_is_active_false. simpl.
  now apply filter_map_if.
Qed.

(** A run of X15's theorem on the chain. *)
Lemma deactivate_then_delete_retraces_same_paths_witness :
  exists w1 w2,
    update_connected_endpoints Examples.tracer Examples.link2_planned false false
                               (mkWorld Examples.chain []) = Val tt w1 /\
    retrace_cable_paths Examples.tracer Examples.link2_planned w1 = Val tt w2 /\
    calls w2 =
      [Call_retrace (set_is_active false Examples.path_1_to_2);
       Call_retrace (set_is_active false Examples.path_2_to_1)].
Proof.
  apply (deactivate_then_delete_retraces_same_paths Examples.tracer
           Examples.link2_planned (mkWorld Examples.chain [])); discriminate.
Defined.

(** X16: [nullify_connected_endpoints] is idempotent and the receivers of
    two deleted terminations commute: handled in either order they leave the
    same world. *)
Theorem nullify_idempotent_and_commutes (a b : CableTermination) (w : World) :
  (nullify_connected_endpoints a ;;; nullify_connected_endpoints a) w =
    nullify_connected_endpoints a w /\
  (nullify_connected_endpoints a ;;; nullify_connected_endpoints b) w =
    (nullify_connected_endpoints b ;;; nullify_connected_endpoints a) w.
Proof.
  unfold nullify_connected_endpoints, bind, write_db, update_link_peer_none. simpl.
  split; f_equal; f_equal; f_equal; rewrite !map_map; apply map_ext; intros o.
  - destruct (String.eqb (object_type o) (termination_type a)
              && Z.eqb (object_pk o) (termination_id a)) eqn:E; simpl; now rewrite E.
  - destruct (String.eqb (object_type o) (termination_type a)
              && Z.eqb (object_pk o) (termination_id a)) eqn:Ea;
      destruct (String.eqb (object_type o) (termination_type b)
                && Z.eqb (object_pk o) (termination_id b)) eqn:Eb;
      simpl; rewrite ?Ea, ?Eb; reflexivity.
Qed.

(** X17: when the deleted termination points to no stored object (no object
    of that model has that key), [nullify_connected_endpoints] changes
    nothing; an object with the same key but another model does not count. *)
Theorem nullify_without_object (instance : CableTermination) (w : World) :
  (forall o, In o (termination_objects (db w)) ->
             object_type o = termination_type instance ->
             object_pk o <> termination_id instance) ->
  nullify_connected_endpoints instance w = Val tt w.
Proof.
  intros Hnone. unfold nullify_connected_endpoints, write_db, update_link_peer_none.
  destruct w as [[cs ts ps os] log]. simpl in *. do 3 f_equal.
  transitivity (map (fun o : TerminationObject => o) os); [|apply map_id].
  apply map_ext_in. intros o Ho.
  destruct (String.eqb (object_type o) (termination_type instance)) eqn:Et;
    [|reflexivity].
  apply String.eqb_eq in Et. simpl.
  destruct (Z.eqb (object_pk o) (termination_id instance)) eqn:Ei; [|reflexivity].
  apply Z.eqb_eq in Ei. now destruct (Hnone o Ho Et).
Qed.

(** A run of X17's theorem: a termination on front port 1, while only
    interface 1 is stored under key 1. *)
Lemma nullify_without_object_witness :
  nullify_connected_endpoints (Examples.term 1 End_A (Examples.frontport 1))
                              (mkWorld Examples.chain []) =
  Val tt (mkWorld Examples.chain []).
Proof.
  apply (nullify_without_object (Examples.term 1 End_A (Examples.frontport 1))
           (mkWorld Examples.chain [])).
  intros o Ho. simpl in Ho.
  destruct Ho as [<-|[<-|[<-|[]]]]; simpl; intros Ht; discriminate.
Defined.

(** X18: for a newly created cable [update_connected_endpoints] looks at the
    terminations only: two instances with the same key are handled alike,
    whatever their status and previous status (a cable created as "planned"
    is traced like a connected one). *)
Theorem created_ignores_status (I : Imports) (c1 c2 : Cable) (raw : bool) (w : World) :
  pk c1 = pk c2 ->
  update_connected_endpoints I c1 true raw w =
  update_connected_endpoints I c2 true raw w.
Proof.
  intros Hpk. destruct raw; [reflexivity|].
  rewrite !created_runs. unfold created_calls, end_nodes, terminations_filter.
  now rewrite Hpk.
Qed.

(** A run of X18's theorem: cable 2 created as connected and as planned. *)
Lemma created_ignores_status_witness :
  update_connected_endpoints Examples.tracer Examples.link2 true false
                             (mkWorld Examples.chain_no_paths []) =
  update_connected_endpoints Examples.tracer Examples.link2_planned true false
                             (mkWorld Examples.chain_no_paths []).
Proof.
  apply (created_ignores_status Examples.tracer Examples.link2 Examples.link2_planned
           false (mkWorld Examples.chain_no_paths [])).
  reflexivity.
Defined.

(** X19: a newly created cable gives rise to one tracer call per end that has
    terminations, so to two at most; a cable created without any termination
    gives rise to none and leaves the world as it was. *)
Theorem created_calls_one_per_end (I : Imports) (instance : Cable) (w : World) :
  exists w' cs,
    update_connected_endpoints I instance true false w = Val tt w' /\
    calls w' = calls w ++ cs /\
    List.length cs =
      (match end_nodes instance End_A (db w) with [] => 0 | _ :: _ => 1 end +
       match end_nodes instance End_B (db w) with [] => 0 | _ :: _ => 1 end)%nat /\
    (end_nodes instance End_A (db w) = [] ->
     end_nodes instance End_B (db w) = [] -> w' = w).
Proof.
  rewrite created_runs. eexists. eexists. split; [reflexivity|].
  split; [reflexivity|]. unfold created_calls. split.
  - rewrite length_app. f_equal.
    + destruct (end_nodes instance End_A (db w)) as [|n ns]; [reflexivity|].
      simpl. now destruct (PathEndpoint I (node_type n)).
    + destruct (end_nodes instance End_B (db w)) as [|n ns]; [reflexivity|].
      simpl. now destruct (PathEndpoint I (node_type n)).
  - intros -> ->. simpl. rewrite app_nil_r. now destruct w.
Qed.

(** X20: when no cable path holds the deleted cable, [retrace_cable_paths]
    makes no call and leaves the world as it was. *)
Theorem retrace_nothing_to_do (I : Imports) (instance : Cable) (w : World) :
  cablepaths_containing (cable_node instance) (db w) = [] ->
  retrace_cable_paths I instance w = Val tt w.
Proof.
  intros Hnone. unfold retrace_cable_paths, bind, get_db.
  rewrite for_each_retrace_runs, Hnone. simpl. rewrite app_nil_r. now destruct w.
Qed.

(** A run of X20's theorem: cable 3 is on no path of the chain. *)
Lemma retrace_nothing_to_do_witness :
  retrace_cable_paths Examples.tracer Examples.link3 (mkWorld Examples.chain []) =
  Val tt (mkWorld Examples.chain []).
Proof.
  apply (retrace_nothing_to_do Examples.tracer Examples.link3
           (mkWorld Examples.chain [])).
  reflexivity.
Defined.
